(** * gofish: the entity base of the Redfish/Swordfish client

    A shallow embedding of [common/entity.go] (the [Entity] type, its
    [Update], [Get], [Patch] and [Post] operations and the reflection-driven
    diff [getPatchPayloadFromUpdate]) and of the collection retriever
    [ListReferencedDataStorageLineOfServices] of the swordfish package,
    followed by the properties the specification states about them.

    Conventions of the embedding:
    - a Go map with string keys is a [gmap string _]; its iteration order,
      which Go randomises, is supplied by a [MapRange];
    - a [reflect.Value] is a [value]: booleans, integers, floats, strings,
      pointers, slices, maps with string keys, structs and interfaces, with
      the address of what a pointer, a slice or a map refers to (arrays,
      channels, functions and complex numbers are outside this universe);
      a run-time panic of the reflect package is the [Panics] outcome of
      [exec];
    - a JSON text and what [encoding/json] stores into an [interface{}]
      are both a [json]; its numbers are the whole ones (a literal with a
      fraction or an exponent is outside this universe): in a text the
      number written, in a decoded value the [float64] it was rounded to;
    - the transport is a stub answering each request, and every operation
      returns the requests it issued. *)

From Stdlib Require Import SpecFloat.
From stdpp Require Import gmap strings list fin_maps pretty sorting.

Set Warnings "-register-all".
Set Default Proof Using "Type".

Open Scope string_scope.

(** ** Go values *)

(** A JSON value, and the generic value [encoding/json] produces when it
    decodes one into [interface{}]: nil, bool, float64, string,
    []interface{} and map[string]interface{}. *)
Inductive json :=
| JNull
| JBool (b : bool)
| JNumber (n : Z)
| JString (s : string)
| JArray (xs : list json)
| JObject (m : gmap string json).

(** [reflect.StructField], as far as the diff reads it: the Go name, the
    value of the [json] key of the tag, whether the field is exported
    ([PkgPath] empty) and whether it is embedded. *)
Record StructField := mkField {
  Name : string;
  Tag : string;
  Exported : bool;
  Anonymous : bool;
}.

Global Instance StructField_eq_dec : EqDecision StructField.
Proof. solve_decision. Defined.

(** A float64 is a [spec_float] of the Standard Library: a zero or an
    infinity with its sign, a NaN, or a finite number.  Go's [==] on floats
    is [SFeqb]: a NaN equals nothing, itself included, and the two zeros
    are equal. *)
Global Instance spec_float_eq_dec : EqDecision spec_float.
Proof. solve_decision. Defined.


(** An address: what a pointer points to, where the backing array of a
    slice starts, which map a map value is. *)
Definition addr := N.

(** A Go value as [reflect] sees it.  A pointer is the address and the
    value of its target, a slice the address of its backing array and its
    elements, a map its address and its entries; each is nil when there is
    none.  A struct carries its fields in declaration order.  A field of
    interface type holds nothing (nil) or a value with the name of its
    dynamic type; the value an interface holds is never itself an
    interface. *)
Inductive value :=
| VBool (b : bool)
| VInt (n : Z)
| VFloat (f : spec_float)
| VString (s : string)
| VPtr (target : option (addr * value))
| VSlice (elems : option (addr * list value))
| VMap (entries : option (addr * gmap string value))
| VStruct (fields : list (StructField * value))
| VIface (dyn : option (string * value)).

(** The address of a map that the diff makes ([make], line 292).  The code
    compares no such map with another, and every one of them is given this
    address. *)
Definition made : addr := 0%N.

Module reflect.
Inductive Kind :=
| Bool | Int | Float64 | String | Ptr | Slice | Map | Struct | Interface.
End reflect.

Global Instance Kind_eq_dec : EqDecision reflect.Kind.
Proof. solve_decision. Defined.

(** [field.Type.Kind()]: the kind of the declared type. *)
Definition TypeKind (v : value) : reflect.Kind :=
  match v with
  | VBool _ => reflect.Bool
  | VInt _ => reflect.Int
  | VFloat _ => reflect.Float64
  | VString _ => reflect.String
  | VPtr _ => reflect.Ptr
  | VSlice _ => reflect.Slice
  | VMap _ => reflect.Map
  | VStruct _ => reflect.Struct
  | VIface _ => reflect.Interface
  end.

(** [v.Interface() == nil]: only an interface-typed field holding nothing. *)
Definition isNil (v : value) : bool :=
  match v with
  | VIface None => true
  | _ => false
  end.

(** [reflect.TypeOf(v.Interface()).Kind()]: the kind of the dynamic type.
    The diff asks it of no nil interface. *)
Definition dynKind (v : value) : reflect.Kind :=
  match v with
  | VIface (Some (_, x)) => TypeKind x
  | _ => TypeKind v
  end.

(** *** Size, used for induction through the nested maps *)

Fixpoint value_size (v : value) : nat :=
  match v with
  | VPtr (Some (_, t)) => S (value_size t)
  | VSlice (Some (_, xs)) => S (list_sum (map value_size xs))
  | VMap (Some (_, m)) =>
      S (map_fold (fun _ v acc => value_size v + acc) 0 m)
  | VStruct fs => S (list_sum (map (fun fv => value_size (snd fv)) fs))
  | VIface (Some (_, x)) => S (value_size x)
  | _ => 1
  end.

(** ** reflect.DeepEqual *)

(** Two sequences agree when they have the same length and their elements
    agree pairwise; two maps when they have the same number of entries and
    every key of the first is bound in the second to an element that
    agrees. *)
Definition deepEqualList {A : Type} (eq : A -> A -> bool)
  : list A -> list A -> bool :=
  fix go (xs ys : list A) {struct xs} : bool :=
    match xs, ys with
    | [], [] => true
    | x :: xs', y :: ys' => eq x y && go xs' ys'
    | _, _ => false
    end.

Definition deepEqualMap {A : Type} (eq : A -> A -> bool)
  (m1 m2 : gmap string A) : bool :=
  bool_decide (size m1 = size m2) &&
  map_fold (fun k v acc =>
              acc && match m2 !! k with
                     | Some w => eq v w
                     | None => false
                     end) true m1.

(** [reflect.DeepEqual]: values of one type are deeply equal when
    - booleans, integers, floats and strings: they are equal with [==];
    - pointers: they are the same pointer, or point to deeply equal values;
    - slices: both are nil or neither is, they have the same length, and
      they start at the same address or have deeply equal elements;
    - maps: both are nil or neither is, they have the same length, and they
      are the same map or bind every key to deeply equal values;
    - structs: their fields are deeply equal;
    - interfaces: both hold nothing, or they hold deeply equal values of
      the same dynamic type. *)
Fixpoint DeepEqual (a b : value) {struct a} : bool :=
  match a, b with
  | VBool x, VBool y => bool_decide (x = y)
  | VInt x, VInt y => bool_decide (x = y)
  | VFloat x, VFloat y => SFeqb x y
  | VString x, VString y => bool_decide (x = y)
  | VPtr None, VPtr None => true
  | VPtr (Some (p, x)), VPtr (Some (q, y)) =>
      bool_decide (p = q) || DeepEqual x y
  | VSlice None, VSlice None => true
  | VSlice (Some (p, xs)), VSlice (Some (q, ys)) =>
      bool_decide (length xs = length ys) &&
      (bool_decide (p = q) || deepEqualList DeepEqual xs ys)
  | VMap None, VMap None => true
  | VMap (Some (p, m1)), VMap (Some (q, m2)) =>
      bool_decide (size m1 = size m2) &&
      (bool_decide (p = q) || deepEqualMap DeepEqual m1 m2)
  | VStruct fs, VStruct gs =>
      deepEqualList
        (fun fx gy => bool_decide (fx.1 = gy.1) && DeepEqual fx.2 gy.2) fs gs
  | VIface None, VIface None => true
  | VIface (Some (s, x)), VIface (Some (t, y)) =>
      bool_decide (s = t) && DeepEqual x y
  | _, _ => false
  end.



(** A value none of whose floats is a NaN or a zero: on such floats [==] is
    equality. *)
Definition exactFloat (f : spec_float) : bool :=
  match f with
  | S754_nan | S754_zero _ => false
  | _ => true
  end.

Fixpoint exact (v : value) : bool :=
  match v with
  | VFloat f => exactFloat f
  | VPtr (Some (_, t)) => exact t
  | VSlice (Some (_, xs)) => forallb exact xs
  | VMap (Some (_, m)) => map_fold (fun _ v acc => exact v && acc) true m
  | VStruct fs => forallb (fun fv => exact fv.2) fs
  | VIface (Some (_, x)) => exact x
  | _ => true
  end.

(** Go's [==] on two values of one type, at the kinds the diff compares
    with it: booleans, integers, floats, strings, and pointers, which are
    equal when they are the same pointer. *)
Definition goEqual (a b : value) : bool :=
  match a, b with
  | VBool x, VBool y => bool_decide (x = y)
  | VInt x, VInt y => bool_decide (x = y)
  | VFloat x, VFloat y => SFeqb x y
  | VString x, VString y => bool_decide (x = y)
  | VPtr None, VPtr None => true
  | VPtr (Some (p, _)), VPtr (Some (q, _)) => bool_decide (p = q)
  | _, _ => false
  end.

(** Go's [==] on two interface values, as in [originalValue !=
    currentValue]: they hold nothing both, or values of the same dynamic
    type that are equal.  The value of a field whose type is no interface
    has the type of the field. *)
Definition ifaceEqual (a b : value) : bool :=
  match a, b with
  | VIface None, VIface None => true
  | VIface (Some (s, x)), VIface (Some (t, y)) =>
      bool_decide (s = t) && goEqual x y
  | VIface _, _ | _, VIface _ => false
  | _, _ => goEqual a b
  end.


(** ** Outcomes *)

(** A call either returns or does not: it stops in a run-time panic
    (reflect called on the wrong kind, an index out of range, a nil client)
    or in a fatal error of the runtime (two goroutines caught writing one
    map at once). *)
Inductive exec (A : Type) :=
| Done (a : A)
| Panics.
Arguments Done {A} a.
Arguments Panics {A}.

Global Instance exec_ret : MRet exec := fun A a => Done a.

Global Instance exec_bind : MBind exec := fun A B k x =>
  match x with
  | Done a => k a
  | Panics => Panics
  end.

(** Go's [error] values.  [Errorf] is an error made by [fmt.Errorf] or by
    the transport; the other two are the errors of [encoding/json]. *)
Inductive error :=
| Errorf (msg : string)
| UnmarshalTypeError (Value : string) (GoType : string)
| SyntaxError.

Global Instance error_eq_dec : EqDecision error.
Proof. solve_decision. Defined.

(** The order in which [for k, v := range m] visits a map: some
    enumeration of its entries, chosen by the runtime. *)
Record MapRange := mkMapRange {
  rangeOf : forall {V : Type}, gmap string V -> list (string * V);
  rangeOf_perm : forall (V : Type) (m : gmap string V),
    rangeOf m ≡ₚ map_to_list m;
}.

Definition rangeInOrder : MapRange :=
  {| rangeOf := fun V m => map_to_list m;
     rangeOf_perm := fun V m => reflexivity (map_to_list m) |}.

(** ** The structural diff: [getPatchPayloadFromUpdate] *)

(** [v.Field(i)]: panics unless [v] is a struct with more than [i] fields. *)
Definition Field (v : value) (i : nat) : exec value :=
  match v with
  | VStruct fs =>
      match fs !! i with
      | Some (_, x) => Done x
      | None => Panics
      end
  | _ => Panics
  end.

(** [for k, v := range structPayload { payload[k] = v }].  The keys of a map
    are distinct, so the result does not depend on the order of the visit. *)
Definition splice (structPayload payload : gmap string value)
  : gmap string value :=
  map_fold (fun k v acc => <[k := v]> acc) payload structPayload.

(** The name of a field in the payload: the value of its [json] tag, or
    its Go name when it has none. *)
Definition fieldNameOf (field : StructField) : string :=
  let fieldName := Name field in
  let jsonName := Tag field in
  if bool_decide (jsonName = "") then fieldName else jsonName.

(** The body of the loop, for the field of index [i]: the payload it
    leaves, a [continue] leaving the payload as it was.  [diff] is the
    function itself, called on a nested struct. *)
Definition visitField (diff : value -> value -> exec (gmap string value))
  (updatedEntity : value) (i : nat) (payload : gmap string value)
  (field : StructField) (originalField : value)
  : exec (gmap string value) :=
  if negb (Exported field) then Done payload
  else if bool_decide (TypeKind originalField = reflect.Ptr) then Done payload
  else
    let jsonName := Tag field in
    if bool_decide (jsonName = "-") then Done payload
    else
      let fieldName := fieldNameOf field in
      currentField ← Field updatedEntity i;
      if isNil originalField && isNil currentField then Done payload
      else if isNil originalField
      then Done (<[fieldName := currentField]> payload)
      else
        match dynKind originalField with
        | reflect.Slice | reflect.Map =>
            if negb (DeepEqual originalField currentField)
            then Done (<[fieldName := currentField]> payload)
            else Done payload
        | reflect.Struct =>
            structPayload ← diff originalField currentField;
            if Anonymous field then Done (splice structPayload payload)
            else if negb (bool_decide (size structPayload = 0))
            then Done (<[fieldName := VMap (Some (made, structPayload))]>
                         payload)
            else Done payload
        | _ =>
            if negb (ifaceEqual originalField currentField)
            then Done (<[fieldName := currentField]> payload)
            else Done payload
        end.

(** [for i := 0; i < originalEntity.NumField(); i++ { ... }] *)
Definition forFields
  (visit : nat -> gmap string value -> StructField -> value ->
           exec (gmap string value))
  : list (StructField * value) -> nat -> gmap string value ->
    exec (gmap string value) :=
  fix loop fs i payload {struct fs} :=
    match fs with
    | [] => Done payload
    | (field, originalField) :: rest =>
        payload ← visit i payload field originalField;
        loop rest (S i) payload
    end.

Fixpoint getPatchPayloadFromUpdate (originalEntity updatedEntity : value)
  {struct originalEntity} : exec (gmap string value) :=
  match originalEntity with
  | VStruct fields =>
      forFields (visitField getPatchPayloadFromUpdate updatedEntity)
                fields 0 ∅
  | _ => Panics
  end.




(** ** The transport *)

(** [resp.Body]: what [io.ReadAll] returns and what [Close] returns.  The
    bytes read are kept as the JSON document they spell, [None] when they
    are not JSON at all. *)
Inductive document :=
| DocNull
| DocObject (members : list (string * json))
| DocOther (j : json).

Record ReadCloser := mkBody {
  ReadAll : option document + error;
  Close : option error;
}.

(** [*http.Response], as far as the entity reads it.  [Header] binds a key
    to the slice of its values when that slice is not nil: [resp.Header[k]]
    is nil for a key that is absent as for a key bound to the nil slice,
    and the code tells the two apart nowhere.  The response is not nil and
    neither is its body. *)
Record Response := mkResponse {
  Header : gmap string (list string);
  Body : ReadCloser;
}.

Inductive request :=
| GET (uri : string)
| PATCH (uri : string) (payload : value) (headers : gmap string string)
| POST (uri : string) (payload : value) (headers : gmap string string).

(** [common.Client], reduced to the three methods the entity uses.  The
    client is a stub: it answers a request by looking at that request, by
    an error or by a response that is not nil.  A client passed to [Get] is
    not nil; the client an entity is bound to may be. *)
Module Client.
Record t := mk {
  Get : string -> Response + error;
  PatchWithHeaders : string -> value -> gmap string string -> Response + error;
  PostWithHeaders : string -> value -> gmap string string -> Response + error;
}.
End Client.

(** ** Entity *)

(** The [client] of an entity is nil until [SetClient] or [Get] binds one. *)
Record Entity := mkEntity {
  ODataID : string;
  ID : string;
  Name_ : string;
  client : option Client.t;
  etag : string;
  stripEtagQuotes : bool;
  disableEtagMatch : bool;
}.

Definition SetClient (e : Entity) (c : Client.t) : Entity :=
  {| ODataID := ODataID e; ID := ID e; Name_ := Name_ e; client := Some c;
     etag := etag e; stripEtagQuotes := stripEtagQuotes e;
     disableEtagMatch := disableEtagMatch e |}.

Definition GetClient (e : Entity) : option Client.t := client e.

Definition StripEtagQuotes (e : Entity) (b : bool) : Entity :=
  {| ODataID := ODataID e; ID := ID e; Name_ := Name_ e; client := client e;
     etag := etag e; stripEtagQuotes := b;
     disableEtagMatch := disableEtagMatch e |}.

Definition DisableEtagMatch (e : Entity) (b : bool) : Entity :=
  {| ODataID := ODataID e; ID := ID e; Name_ := Name_ e; client := client e;
     etag := etag e; stripEtagQuotes := stripEtagQuotes e;
     disableEtagMatch := b |}.

Definition setEtag (e : Entity) (tag : string) : Entity :=
  {| ODataID := ODataID e; ID := ID e; Name_ := Name_ e; client := client e;
     etag := tag; stripEtagQuotes := stripEtagQuotes e;
     disableEtagMatch := disableEtagMatch e |}.

(** [strings.Trim] with the double quote as cutset: drop every leading and
    trailing double quote. *)
Definition quote : Ascii.ascii := Ascii.ascii_of_nat 34.

Fixpoint trimLeft (s : string) : string :=
  match s with
  | String a s' => if Ascii.eqb a quote then trimLeft s' else s
  | EmptyString => EmptyString
  end.

Definition Trim (s : string) : string :=
  String.rev (trimLeft (String.rev (trimLeft s))).

(** A token between double quotes, the way a server sends an entity tag. *)
Definition quoted (s : string) : string :=
  String quote (s ++ String quote "").

(** What an operation hands back: the error it returns (nil is [None]),
    the receiver or target as the operation left it, and the requests it
    sent to the transport, in order. *)
Record outcome (T : Type) := mkOutcome {
  returned : option error;
  after : T;
  sent : list request;
}.
Arguments mkOutcome {T} _ _ _.
Arguments returned {T} _.
Arguments after {T} _.
Arguments sent {T} _.

(** The conditional header of [Patch] and [Post], together with the entity
    after the assignment to [e.etag] that the stripping makes. *)
Definition ifMatch (e : Entity) : Entity * gmap string string :=
  if negb (bool_decide (etag e = "")) && negb (disableEtagMatch e) then
    let e' := if stripEtagQuotes e then setEtag e (Trim (etag e)) else e in
    (e', <["If-Match" := etag e']> ∅)
  else (e, ∅).

Definition Patch (e : Entity) (uri : string) (payload : value)
  : exec (outcome Entity) :=
  let '(e', header) := ifMatch e in
  match client e' with
  | None => Panics
  | Some c =>
      match Client.PatchWithHeaders c uri payload header with
      | inl resp =>
          Done {| returned := Close (Body resp); after := e';
                  sent := [PATCH uri payload header] |}
      | inr err =>
          Done {| returned := Some err; after := e';
                  sent := [PATCH uri payload header] |}
      end
  end.

Definition Post (e : Entity) (uri : string) (payload : value)
  : exec (outcome Entity) :=
  let '(e', header) := ifMatch e in
  match client e' with
  | None => Panics
  | Some c =>
      match Client.PostWithHeaders c uri payload header with
      | inl resp =>
          Done {| returned := Close (Body resp); after := e';
                  sent := [POST uri payload header] |}
      | inr err =>
          Done {| returned := Some err; after := e';
                  sent := [POST uri payload header] |}
      end
  end.

(** The loop of [Update] over the payload: the first field, in the order
    of the visit, that no entry of [allowedUpdates] equals. *)
Fixpoint firstReadOnly (allowedUpdates : list string) (fields : list string)
  : option string :=
  match fields with
  | [] => None
  | field :: rest =>
      let found := existsb (fun name => bool_decide (name = field))
                           allowedUpdates in
      if negb found then Some field else firstReadOnly allowedUpdates rest
  end.

Definition Update (rt : MapRange) (e : Entity)
  (originalEntity updatedEntity : value) (allowedUpdates : list string)
  : exec (outcome Entity) :=
  payload ← getPatchPayloadFromUpdate originalEntity updatedEntity;
  match firstReadOnly allowedUpdates (fst <$> rangeOf rt payload) with
  | Some field =>
      Done {| returned := Some (Errorf (field ++ " field is read only"));
              after := e; sent := [] |}
  | None =>
      if bool_decide (0 < size payload)%nat
      then Patch e (ODataID e) (VMap (Some (made, payload)))
      else Done {| returned := None; after := e; sent := [] |}
  end.

(** ** float64

    [encoding/json] keeps a number it decodes into an [interface{}] as a
    [float64] and prints a [float64] with the fewest digits that read back
    as the same [float64].  Both are given here on the whole numbers. *)

(** [strconv.ParseFloat] of the literal [n], as the whole number the
    [float64] holds: [n] itself below 2^53 in magnitude; beyond, the
    nearest multiple of the gap between the floats of that size, a tie
    going to the even mantissa; [None] when that is 2^1024 or more, which
    [ParseFloat] refuses as out of range. *)
Definition float64 (n : Z) : option Z :=
  let a := Z.abs n in
  if (a <? 2 ^ 53)%Z then Some n
  else
    let e := (Z.log2 a - 52)%Z in
    let q := (a / 2 ^ e)%Z in
    let r := (a mod 2 ^ e)%Z in
    let half := (2 ^ (e - 1))%Z in
    let q := if (half <? r)%Z || ((r =? half)%Z && Z.odd q)
             then (q + 1)%Z else q in
    let x := (q * 2 ^ e)%Z in
    if (2 ^ 1024 <=? x)%Z then None else Some (Z.sgn n * x)%Z.

(** The digits [strconv] prints for the positive float [a], as the number
    they spell.  [lo4] and [hi4] are four times the bounds of the numbers
    that round to [a], which belong to them when [inclusive].  With the
    digits of [a] cut at the power of ten [10^j], first for the largest
    [j], the first cut whose value below or above [a] lies within the
    bounds is taken; when both do, the nearer, a tie going to the even
    digit. *)
Fixpoint shortestFrom (j : nat) (a lo4 hi4 : Z) (inclusive : bool) : Z :=
  let P := (10 ^ Z.of_nat j)%Z in
  let down := (a / P * P)%Z in
  let up := (down + P)%Z in
  let okdown := (lo4 <? 4 * down)%Z || (inclusive && (lo4 =? 4 * down)%Z) in
  let okup := (4 * up <? hi4)%Z || (inclusive && (4 * up =? hi4)%Z) in
  if okdown && okup then
    if (2 * (a - down) <? P)%Z then down
    else if (P <? 2 * (a - down))%Z then up
    else if Z.odd (a / P) then up else down
  else if okdown then down
  else if okup then up
  else match j with
       | O => a
       | S j' => shortestFrom j' a lo4 hi4 inclusive
       end.

(** What [json.Marshal] prints for the [float64] holding the whole number
    [x], as the number printed: below 2^53 in magnitude [x] itself, whose
    digits are all needed; beyond, the shortest decimal that reads back as
    [x], so that 2^62 is printed 4611686018427388000. *)
Definition shortest (x : Z) : Z :=
  let a := Z.abs x in
  if (a <? 2 ^ 53)%Z then x
  else
    let e := (Z.log2 a - 52)%Z in
    let m := (a / 2 ^ e)%Z in
    let hi4 := (4 * a + 2 * 2 ^ e)%Z in
    let lo4 := if (m =? 2 ^ 52)%Z then (4 * a - 2 ^ e)%Z
               else (4 * a - 2 * 2 ^ e)%Z in
    (Z.sgn x *
     shortestFrom (String.length (pretty a) - 1) a lo4 hi4 (Z.even m))%Z.

(** Whether every number of a JSON value is within the range of
    [float64]; the value as decoded into an [interface{}]; and the value as
    [json.Marshal] prints it. *)
Fixpoint jsonFits (j : json) : bool :=
  match j with
  | JNumber n => bool_decide (is_Some (float64 n))
  | JArray xs => forallb jsonFits xs
  | JObject m => map_fold (fun _ v acc => jsonFits v && acc) true m
  | _ => true
  end.

Fixpoint asDecoded (j : json) : json :=
  match j with
  | JNumber n => JNumber (default 0%Z (float64 n))
  | JArray xs => JArray (asDecoded <$> xs)
  | JObject m => JObject (asDecoded <$> m)
  | _ => j
  end.

Fixpoint asEncoded (j : json) : json :=
  match j with
  | JNumber x => JNumber (shortest x)
  | JArray xs => JArray (asEncoded <$> xs)
  | JObject m => JObject (asEncoded <$> m)
  | _ => j
  end.

(** ** encoding/json *)

(** The name [encoding/json] gives a JSON value in an
    [UnmarshalTypeError]: the first word of its [Value] (for a number that
    does not fit an integer type, Go writes the literal after it). *)
Definition kindName (j : json) : string :=
  match j with
  | JNull => "null"
  | JBool _ => "bool"
  | JNumber _ => "number"
  | JString _ => "string"
  | JArray _ => "array"
  | JObject _ => "object"
  end.

(** [json.Unmarshal(data, &check)] for [check map[string]interface{}]: a
    null leaves the map nil, an object fills it with its members as
    decoded (a later member replaces an earlier one of the same name),
    anything else is a type error; so is a number beyond the range of
    [float64], anywhere in the object. *)
Definition unmarshalMap (data : option document)
  : option (gmap string json) + error :=
  match data with
  | None => inr SyntaxError
  | Some DocNull => inl None
  | Some (DocObject members) =>
      if forallb (fun kv => jsonFits kv.2) members
      then inl (Some (foldl (fun m kv => <[kv.1 := asDecoded kv.2]> m)
                            ∅ members))
      else inr (UnmarshalTypeError "number" "float64")
  | Some (DocOther j) =>
      inr (UnmarshalTypeError (kindName j) "map[string]interface {}")
  end.

(** [json.Marshal] of a [map[string]interface{}]: null for the nil map,
    otherwise the members as printed, sorted by key. *)
Definition keyLe (x y : string * json) : Prop := (x.1 ≤ y.1)%string.

Global Instance keyLe_dec : RelDecision keyLe.
Proof. intros x y. unfold keyLe, String.le. apply _. Defined.

Definition Marshal (check : option (gmap string json)) : document :=
  match check with
  | None => DocNull
  | Some m => DocObject (merge_sort keyLe (map_to_list (asEncoded <$> m)))
  end.

(** Case folding of the names of members and fields.  [encoding/json]
    folds by Unicode simple folding; a string here is the UTF-8 bytes of
    the name.  The ASCII letters go to upper case, and so do the two
    letters beyond ASCII that fold to an ASCII one: the long s (U+017F,
    bytes 197 191) to [S] and the Kelvin sign (U+212A, bytes 226 132 170)
    to [K].  Every other byte is kept, so that a name holding another
    letter beyond ASCII folds to no ASCII name, as in [encoding/json]; the
    fields of the records here have ASCII names. *)
Definition foldAscii (a : Ascii.ascii) : Ascii.ascii :=
  let n := Ascii.N_of_ascii a in
  if ((97 <=? n) && (n <=? 122))%N then Ascii.ascii_of_N (n - 32) else a.

Definition isByte (n : N) (a : Ascii.ascii) : bool :=
  (Ascii.N_of_ascii a =? n)%N.

Fixpoint foldName (s : string) : string :=
  match s with
  | EmptyString => EmptyString
  | String a s1 =>
      match s1 with
      | String b s2 =>
          if isByte 197 a && isByte 191 b
          then String (Ascii.ascii_of_nat 83) (foldName s2)
          else
            match s2 with
            | String c s3 =>
                if isByte 226 a && isByte 132 b && isByte 170 c
                then String (Ascii.ascii_of_nat 75) (foldName s3)
                else String (foldAscii a) (foldName s1)
            | EmptyString => String (foldAscii a) (foldName s1)
            end
      | EmptyString => String (foldAscii a) EmptyString
      end
  end.

(** One field of a struct as the decoder sees it: its JSON name, the Go
    type named in a type error, and the assignment of a JSON value to it,
    which is given that type and returns the type error of a value, or of
    an element of it, that does not fit. *)
Record fieldCodec (T : Type) := mkCodec {
  jsonName : string;
  goType : string;
  store : string -> json -> T -> T * option error;
}.
Arguments mkCodec {T} _ _ _.
Arguments jsonName {T} _.
Arguments goType {T} _.
Arguments store {T} _ _ _ _.

(** The field a key addresses: the one with exactly that name, else the
    first whose name equals it up to case. *)
Definition findField {T} (fields : list (fieldCodec T)) (key : string)
  : option (fieldCodec T) :=
  match find (fun f => bool_decide (jsonName f = key)) fields with
  | Some f => Some f
  | None =>
      find (fun f => bool_decide (foldName (jsonName f) = foldName key)) fields
  end.

(** Decoding an object into a struct: the members are taken in document
    order; a key that addresses no field is skipped; a value that does not
    fit is skipped too and the first such mismatch is the error returned
    once the whole object has been read. *)
Definition decodeMember {T} (fields : list (fieldCodec T))
  (st : T * option error) (kv : string * json) : T * option error :=
  match findField fields kv.1 with
  | None => st
  | Some f =>
      let '(t, bad) := store f (goType f) kv.2 st.1 in
      (t, match st.2 with
          | Some err => Some err
          | None => bad
          end)
  end.

Definition decodeObject {T} (fields : list (fieldCodec T))
  (members : list (string * json)) (t : T) : T * option error :=
  foldl (decodeMember fields) (t, None) members.

Definition storeString {T} (set : string -> T -> T) (goType : string)
  (j : json) (t : T) : T * option error :=
  match j with
  | JString s => (set s t, None)
  | JNull => (t, None)
  | _ => (t, Some (UnmarshalTypeError (kindName j) goType))
  end.

Definition storeBool {T} (set : bool -> T -> T) (goType : string)
  (j : json) (t : T) : T * option error :=
  match j with
  | JBool b => (set b t, None)
  | JNull => (t, None)
  | _ => (t, Some (UnmarshalTypeError (kindName j) goType))
  end.

Definition storeInt {T} (set : Z -> T -> T) (goType : string)
  (j : json) (t : T) : T * option error :=
  match j with
  | JNumber n =>
      if bool_decide (- 2 ^ 63 ≤ n < 2 ^ 63)%Z then (set n t, None)
      else (t, Some (UnmarshalTypeError "number" goType))
  | JNull => (t, None)
  | _ => (t, Some (UnmarshalTypeError (kindName j) goType))
  end.

(** A slice of strings whose elements have the type [elemType]: null
    makes it nil; an array sets every element, one that is no string
    staying empty, and the first that is neither a string nor null gives
    the type error, which names the type of the elements. *)
Definition storeStrings {T} (elemType : string)
  (set : option (list string) -> T -> T) (goType : string)
  (j : json) (t : T) : T * option error :=
  match j with
  | JArray xs =>
      (set (Some ((fun x => match x with JString s => s | _ => "" end) <$> xs))
           t,
       (fun x => UnmarshalTypeError (kindName x) elemType) <$>
       find (fun x => match x with
                      | JString _ | JNull => false
                      | _ => true
                      end) xs)
  | JNull => (set None t, None)
  | _ => (t, Some (UnmarshalTypeError (kindName j) goType))
  end.

(** A record a response is decoded into: it embeds an [Entity], which is
    the receiver of [Get], and it is decoded by [json.Unmarshal], through
    its own [UnmarshalJSON] when it has one. *)
Class Resource (T : Type) := {
  entityOf : T -> Entity;
  withEntity : Entity -> T -> T;
  UnmarshalJSON : list (string * json) -> T -> T * option error;
  typeName : string;
}.

(** [json.Unmarshal(data, &payload)] for a [payload] holding a pointer to
    a record: null has no effect. *)
Definition Unmarshal `{Resource T} (data : document) (payload : T)
  : T * option error :=
  match data with
  | DocNull => (payload, None)
  | DocObject members => UnmarshalJSON members payload
  | DocOther j => (payload, Some (UnmarshalTypeError (kindName j) typeName))
  end.

(** The exported fields of [Entity]. *)
Definition setODataID (s : string) (e : Entity) : Entity :=
  {| ODataID := s; ID := ID e; Name_ := Name_ e; client := client e;
     etag := etag e; stripEtagQuotes := stripEtagQuotes e;
     disableEtagMatch := disableEtagMatch e |}.

Definition setID (s : string) (e : Entity) : Entity :=
  {| ODataID := ODataID e; ID := s; Name_ := Name_ e; client := client e;
     etag := etag e; stripEtagQuotes := stripEtagQuotes e;
     disableEtagMatch := disableEtagMatch e |}.

Definition setName (s : string) (e : Entity) : Entity :=
  {| ODataID := ODataID e; ID := ID e; Name_ := s; client := client e;
     etag := etag e; stripEtagQuotes := stripEtagQuotes e;
     disableEtagMatch := disableEtagMatch e |}.

Definition entityFields {T} (get : T -> Entity) (set : Entity -> T -> T)
  : list (fieldCodec T) :=
  [ mkCodec "@odata.id" "string"
      (storeString (fun s t => set (setODataID s (get t)) t));
    mkCodec "Id" "string"
      (storeString (fun s t => set (setID s (get t)) t));
    mkCodec "Name" "string"
      (storeString (fun s t => set (setName s (get t)) t)) ].

(** An [Entity] decoded on its own has no [UnmarshalJSON]: the decoder
    fills its exported fields. *)
Global Instance Entity_Resource : Resource Entity := {|
  entityOf := fun e => e;
  withEntity := fun e _ => e;
  UnmarshalJSON := decodeObject (entityFields (fun e => e) (fun e _ => e));
  typeName := "common.Entity";
|}.

Definition zeroEntity : Entity :=
  {| ODataID := ""; ID := ""; Name_ := ""; client := None; etag := "";
     stripEtagQuotes := false; disableEtagMatch := false |}.

(** ** Get *)

(** [strings.Contains]. *)
Fixpoint Contains (s substr : string) : bool :=
  String.prefix substr s ||
  match s with
  | EmptyString => false
  | String _ s' => Contains s' substr
  end.

(** [int(x)] of a [float64] holding the integer [x]: the value itself
    within the range of [int]; outside of it the conversion yields the
    smallest [int] on amd64. *)
Definition int (x : Z) : Z :=
  if bool_decide (- 2 ^ 63 ≤ x < 2 ^ 63)%Z then x else (- 2 ^ 63)%Z.

(** [fmt.Sprintf("%v", int(x))] and [strconv.Itoa]. *)
Definition Itoa (n : Z) : string := pretty n.

(** The type assertions on the decoded body. *)
Definition asString (o : option json) : option string :=
  match o with
  | Some (JString s) => Some s
  | _ => None
  end.

Definition asFloat64 (o : option json) : option Z :=
  match o with
  | Some (JNumber n) => Some n
  | _ => None
  end.

Definition asMap (o : option json) : option (gmap string json) :=
  match o with
  | Some (JObject m) => Some m
  | _ => None
  end.

(** [x.([]map[string]interface{})] and [x.(int)]: encoding/json decodes an
    array into [[]interface{}] and a number into [float64], so neither
    assertion holds of a value it decoded. *)
Definition asSliceOfMaps (o : option json) : option (list (gmap string json)) :=
  None.

Definition asInt (j : json) : option Z := None.

(** [if x, ok := m[key].(float64); ok { m[key] = fmt.Sprintf("%v", int(x)) }] *)
Definition numberToString (key : string) (m : gmap string json)
  : gmap string json :=
  match asFloat64 (m !! key) with
  | Some x => <[key := JString (Itoa (int x))]> m
  | None => m
  end.

(** [if x, ok := m[key].(map[string]interface{}); ok { delete(m, key);
    m[key] = []map[string]interface{}{x} }] *)
Definition wrapInSlice (key : string) (m : gmap string json)
  : gmap string json :=
  match asMap (m !! key) with
  | Some x => <[key := JArray [JObject x]]> (delete key m)
  | None => m
  end.

(** A [[]string] stored in the map: the nil slice is encoded as null. *)
Definition stringSlice (sliceData : list string) : json :=
  match sliceData with
  | [] => JNull
  | _ => JArray (JString <$> sliceData)
  end.

(** The first revision of [Get] in the sources decodes the body into a map
    and reshapes it by resource path before decoding it into the target. *)
Module MapCheck.

Definition processors (check : gmap string json) : gmap string json :=
  numberToString "Socket" check.

Definition drives (rt : MapRange) (check : gmap string json)
  : gmap string json :=
  let check := numberToString "Id" check in
  match asMap (check !! "Links") with
  | Some links =>
      match asMap (links !! "Volumes") with
      | Some volumes =>
          let sliceData :=
            omap (fun kv => asString (Some kv.2)) (rangeOf rt volumes) in
          let links :=
            <["Volumes" := stringSlice sliceData]> (delete "Volumes" links) in
          <["Links" := JObject links]> check
      | None => check
      end
  | None => check
  end.

Definition pcieDevices (check : gmap string json) : gmap string json :=
  numberToString "Id" check.

Definition memory (check : gmap string json) : gmap string json :=
  match asMap (check !! "MemoryLocation") with
  | Some memLocation =>
      let memLocation := numberToString "Socket" memLocation in
      let memLocation := numberToString "Channel" memLocation in
      let memLocation := numberToString "Slot" memLocation in
      <["MemoryLocation" := JObject memLocation]> check
  | None => check
  end.

Definition networkAdapters (check : gmap string json) : gmap string json :=
  wrapInSlice "Controllers" check.

(** The loop over the controllers rewrites [MemberID] and [SpeedGbps] of
    each; it is entered only if the assertion holds. *)
Definition storages (check : gmap string json) : gmap string json :=
  match asSliceOfMaps (check !! "StorageControllers") with
  | Some controllers =>
      <["StorageControllers" :=
          JArray ((fun c => JObject (numberToString "MemberID" c))
                    <$> controllers)]> check
  | None => check
  end.

Definition managers (check : gmap string json) : gmap string json :=
  match asMap (check !! "Links") with
  | Some links =>
      let links := wrapInSlice "ManagerForChassis" links in
      let links := wrapInSlice "ManagerInChassis" links in
      let links := wrapInSlice "ManagerForServers" links in
      <["Links" := JObject links]> check
  | None => check
  end.

Definition when (b : bool) (f : gmap string json -> gmap string json)
  (check : gmap string json) : gmap string json :=
  if b then f check else check.

(** The block between the two decodings. *)
Definition reshape (rt : MapRange) (check : gmap string json)
  : gmap string json :=
  match asString (check !! "@odata.id") with
  | Some odataId =>
      let check :=
        when (Contains odataId "/redfish/v1/Systems/1/Processors/")
             processors check in
      let check :=
        when (Contains odataId "/redfish/v1/Chassis/1/Drives/")
             (drives rt) check in
      let check :=
        when (Contains odataId "/redfish/v1/Chassis/1/PCIeDevices/")
             pcieDevices check in
      let check :=
        when (Contains odataId "/redfish/v1/Systems/1/Memory/")
             memory check in
      let check :=
        when (Contains odataId "/redfish/v1/Chassis/1/NetworkAdapters/")
             networkAdapters check in
      let check :=
        when (Contains odataId "/redfish/v1/Systens/1/Storages/")
             storages check in
      when (bool_decide (odataId = "/redfish/v1/Managers/1")) managers check
  | None => check
  end.

Definition Get `{Resource T} (rt : MapRange) (c : Client.t) (uri : string)
  (payload : T) : exec (outcome T) :=
  match Client.Get c uri with
  | inr err => Done {| returned := Some err; after := payload; sent := [GET uri] |}
  | inl resp =>
      match ReadAll (Body resp) with
      | inr err =>
          Done {| returned := Some err; after := payload; sent := [GET uri] |}
      | inl data =>
          match unmarshalMap data with
          | inr err =>
              Done {| returned := Some err; after := payload;
                      sent := [GET uri] |}
          | inl check =>
              let check := reshape rt <$> check in
              let updatedJSON := Marshal check in
              let '(payload, err) := Unmarshal updatedJSON payload in
              match err with
              | Some err =>
                  Done {| returned := Some err; after := payload;
                          sent := [GET uri] |}
              | None =>
                  let e := entityOf payload in
                  e ← match Header resp !! "Etag" with
                      | None => Done e
                      | Some [] => Panics
                      | Some (tag :: _) => Done (setEtag e tag)
                      end;
                  Done {| returned := None;
                          after := withEntity (SetClient e c) payload;
                          sent := [GET uri] |}
              end
          end
      end
  end.

End MapCheck.

(** The second revision of [Get] in the sources decodes the body into a
    struct holding the identifier alone. *)
Module StructCheck.

Record checkStruct := mkCheck { checkID : json }.

(** The assignment to a field of type [interface{}]: the value as
    decoded, unless one of its numbers is beyond the range of
    [float64]. *)
Definition storeInterface (goType : string) (j : json)
  (check : checkStruct) : checkStruct * option error :=
  if jsonFits j then (mkCheck (asDecoded j), None)
  else (check, Some (UnmarshalTypeError "number" "float64")).

Definition checkFields : list (fieldCodec checkStruct) :=
  [mkCodec "id" "interface {}" storeInterface].

(** [json.Unmarshal(data, &check)]: the field is an [interface{}] tagged
    [id], so every member whose key is [id] up to case is stored in it,
    the last one staying. *)
Definition unmarshalCheck (data : option document) : checkStruct + error :=
  match data with
  | None => inr SyntaxError
  | Some DocNull => inl (mkCheck JNull)
  | Some (DocObject members) =>
      let '(check, err) := decodeObject checkFields members (mkCheck JNull) in
      match err with
      | Some err => inr err
      | None => inl check
      end
  | Some (DocOther j) =>
      inr (UnmarshalTypeError (kindName j) "common.checkStruct")
  end.

Definition marshalCheck (check : checkStruct) : document :=
  DocObject [("id", asEncoded (checkID check))].

Definition Get `{Resource T} (c : Client.t) (uri : string) (payload : T)
  : exec (outcome T) :=
  match Client.Get c uri with
  | inr err => Done {| returned := Some err; after := payload; sent := [GET uri] |}
  | inl resp =>
      match ReadAll (Body resp) with
      | inr err =>
          Done {| returned := Some err; after := payload; sent := [GET uri] |}
      | inl data =>
          match unmarshalCheck data with
          | inr err =>
              Done {| returned := Some err; after := payload;
                      sent := [GET uri] |}
          | inl check =>
              let check :=
                match asInt (checkID check) with
                | Some v => mkCheck (JString (Itoa v))
                | None => check
                end in
              let jsonData := marshalCheck check in
              let '(payload, err) := Unmarshal jsonData payload in
              match err with
              | Some err =>
                  Done {| returned := Some err; after := payload;
                          sent := [GET uri] |}
              | None =>
                  let e := entityOf payload in
                  e ← match Header resp !! "Etag" with
                      | None => Done e
                      | Some [] => Panics
                      | Some (tag :: _) => Done (setEtag e tag)
                      end;
                  Done {| returned := None;
                          after := withEntity (SetClient e c) payload;
                          sent := [GET uri] |}
              end
          end
      end
  end.

End StructCheck.

(** ** The swordfish package: DataStorageLineOfService *)

(** Modelled from the spec: the enumerations [StorageAccessCapability],
    [ProvisioningPolicy] and [RecoveryAccessScope] are declared in files of
    the swordfish package that are not among the sources; the
    specification treats the per-resource schemas as data shapes, and an
    enumeration literal is kept here as the string it has on the wire. *)
Definition StorageAccessCapability := string.
Definition ProvisioningPolicy := string.
Definition RecoveryAccessScope := string.

Record DataStorageLineOfService := mkDSLoS {
  Entity' : Entity;
  ODataContext : string;
  ODataType : string;
  AccessCapabilities : option (list StorageAccessCapability);
  Description : string;
  IsSpaceEfficient : bool;
  OEM : string;
  ProvisioningPolicy' : ProvisioningPolicy;
  RecoverableCapacitySourceCount : Z;
  RecoveryTimeObjectives : RecoveryAccessScope;
}.

Definition zeroDataStorageLineOfService : DataStorageLineOfService :=
  mkDSLoS zeroEntity "" "" None "" false "" "" 0 "".

Definition setEntity (e : Entity) (d : DataStorageLineOfService) :=
  mkDSLoS e (ODataContext d) (ODataType d) (AccessCapabilities d)
    (Description d) (IsSpaceEfficient d) (OEM d) (ProvisioningPolicy' d)
    (RecoverableCapacitySourceCount d) (RecoveryTimeObjectives d).

Definition setODataContext (s : string) (d : DataStorageLineOfService) :=
  mkDSLoS (Entity' d) s (ODataType d) (AccessCapabilities d)
    (Description d) (IsSpaceEfficient d) (OEM d) (ProvisioningPolicy' d)
    (RecoverableCapacitySourceCount d) (RecoveryTimeObjectives d).

Definition setODataType (s : string) (d : DataStorageLineOfService) :=
  mkDSLoS (Entity' d) (ODataContext d) s (AccessCapabilities d)
    (Description d) (IsSpaceEfficient d) (OEM d) (ProvisioningPolicy' d)
    (RecoverableCapacitySourceCount d) (RecoveryTimeObjectives d).

Definition setAccessCapabilities (l : option (list string))
  (d : DataStorageLineOfService) :=
  mkDSLoS (Entity' d) (ODataContext d) (ODataType d) l
    (Description d) (IsSpaceEfficient d) (OEM d) (ProvisioningPolicy' d)
    (RecoverableCapacitySourceCount d) (RecoveryTimeObjectives d).

Definition setDescription (s : string) (d : DataStorageLineOfService) :=
  mkDSLoS (Entity' d) (ODataContext d) (ODataType d) (AccessCapabilities d)
    s (IsSpaceEfficient d) (OEM d) (ProvisioningPolicy' d)
    (RecoverableCapacitySourceCount d) (RecoveryTimeObjectives d).

Definition setIsSpaceEfficient (b : bool) (d : DataStorageLineOfService) :=
  mkDSLoS (Entity' d) (ODataContext d) (ODataType d) (AccessCapabilities d)
    (Description d) b (OEM d) (ProvisioningPolicy' d)
    (RecoverableCapacitySourceCount d) (RecoveryTimeObjectives d).

Definition setOEM (s : string) (d : DataStorageLineOfService) :=
  mkDSLoS (Entity' d) (ODataContext d) (ODataType d) (AccessCapabilities d)
    (Description d) (IsSpaceEfficient d) s (ProvisioningPolicy' d)
    (RecoverableCapacitySourceCount d) (RecoveryTimeObjectives d).

Definition setProvisioningPolicy (s : string) (d : DataStorageLineOfService) :=
  mkDSLoS (Entity' d) (ODataContext d) (ODataType d) (AccessCapabilities d)
    (Description d) (IsSpaceEfficient d) (OEM d) s
    (RecoverableCapacitySourceCount d) (RecoveryTimeObjectives d).

Definition setRecoverableCapacitySourceCount (n : Z)
  (d : DataStorageLineOfService) :=
  mkDSLoS (Entity' d) (ODataContext d) (ODataType d) (AccessCapabilities d)
    (Description d) (IsSpaceEfficient d) (OEM d) (ProvisioningPolicy' d)
    n (RecoveryTimeObjectives d).

Definition setRecoveryTimeObjectives (s : string)
  (d : DataStorageLineOfService) :=
  mkDSLoS (Entity' d) (ODataContext d) (ODataType d) (AccessCapabilities d)
    (Description d) (IsSpaceEfficient d) (OEM d) (ProvisioningPolicy' d)
    (RecoverableCapacitySourceCount d) s.

(** The fields the decoder sees in [struct { temp }]: the exported fields
    of the embedded [Entity], then those of the record itself. *)
Definition dataStorageLineOfServiceFields
  : list (fieldCodec DataStorageLineOfService) :=
  entityFields Entity' setEntity ++
  [ mkCodec "@odata.context" "string" (storeString setODataContext);
    mkCodec "@odata.type" "string" (storeString setODataType);
    mkCodec "AccessCapabilities" "[]swordfish.StorageAccessCapability"
            (storeStrings "swordfish.StorageAccessCapability"
                          setAccessCapabilities);
    mkCodec "Description" "string" (storeString setDescription);
    mkCodec "IsSpaceEfficient" "bool" (storeBool setIsSpaceEfficient);
    mkCodec "Oem" "string" (storeString setOEM);
    mkCodec "ProvisioningPolicy" "swordfish.ProvisioningPolicy"
            (storeString setProvisioningPolicy);
    mkCodec "RecoverableCapacitySourceCount" "int"
            (storeInt setRecoverableCapacitySourceCount);
    mkCodec "RecoveryTimeObjectives" "swordfish.RecoveryAccessScope"
            (storeString setRecoveryTimeObjectives) ].

(** [UnmarshalJSON]: decode into a fresh [t]; on an error return it and
    leave the receiver alone, otherwise overwrite the receiver with [t]. *)
Definition DataStorageLineOfService_UnmarshalJSON
  (b : list (string * json)) (datastoragelineofservice : DataStorageLineOfService)
  : DataStorageLineOfService * option error :=
  let '(t, err) :=
    decodeObject dataStorageLineOfServiceFields b zeroDataStorageLineOfService in
  match err with
  | Some err => (datastoragelineofservice, Some err)
  | None => (t, None)
  end.

Global Instance DataStorageLineOfService_Resource
  : Resource DataStorageLineOfService := {|
  entityOf := Entity';
  withEntity := setEntity;
  UnmarshalJSON := DataStorageLineOfService_UnmarshalJSON;
  typeName := "swordfish.DataStorageLineOfService";
|}.

(** The retriever is written against whichever [Get] the common package
    provides. *)
Definition EntityGet : Type :=
  Client.t -> string -> DataStorageLineOfService ->
  exec (outcome DataStorageLineOfService).

Definition GetDataStorageLineOfService (get : EntityGet) (c : Client.t)
  (uri : string) : exec (outcome DataStorageLineOfService) :=
  get c uri zeroDataStorageLineOfService.

(** *** The collection retriever *)

Record GetResult := mkGetResult {
  Item : DataStorageLineOfService;
  Link : string;
  Error : option error;
}.

(** Modelled from the spec: [common.CollectionError], with
    [NewCollectionError] and [Empty], is declared in a file that is not
    among the sources; it carries the mapping from failing link to error,
    and it is empty when that mapping is. *)
Record CollectionError := mkCollectionError {
  Failures : gmap string error;
}.

Definition NewCollectionError : CollectionError :=
  {| Failures := ∅ |}.

Definition Empty (ce : CollectionError) : bool :=
  bool_decide (size (Failures ce) = 0).

(** Modelled from the spec: [common.CollectList] is not among the sources.
    The walk of the collection is the work of an external collaborator: it
    yields the member links one at a time, possibly stopping on an error
    of its own.  [CollectList] hands every link yielded to [get], returns
    once every one of these fetches has reported, and returns the error of
    the walk. *)
Record Walk := mkWalk {
  members : list string;
  walkError : option error;
}.

Definition CollectList {R : Type} (enumerate : Client.t -> string -> Walk)
  (get : string -> exec R) (c : Client.t) (link : string)
  : exec (list R * option error) :=
  reports ← mapM get (members (enumerate c link));
  Done (reports, walkError (enumerate c link)).

(** The walking goroutine writes the failure mapping (line 101) once
    [CollectList] has returned, that is once every fetch has handed its
    report to the aggregator; the aggregator may then still be handling the
    last report it received, and nothing orders the two: the write of the
    walker happens before the aggregator handles that report, after it, or
    amid it. *)
Inductive WalkerTiming :=
| BeforeLastReport
| AfterLastReport
| AmidLastReport.

(** What the scheduler decides in one collection fetch: the order in which
    the reports of the fetches reach the channel, and when the walker's own
    write to the failure mapping happens. *)
Record Scheduler := mkScheduler {
  arrival : forall {A : Type}, list A -> list A;
  arrival_perm : forall (A : Type) (l : list A), arrival l ≡ₚ l;
  walkerTiming : WalkerTiming;
}.

Definition inDispatchOrder : Scheduler :=
  {| arrival := fun A l => l;
     arrival_perm := fun A l => reflexivity l;
     walkerTiming := AfterLastReport |}.


(** The body of [for r := range ch]. *)
Definition aggregate
  (st : list DataStorageLineOfService * CollectionError) (r : GetResult)
  : list DataStorageLineOfService * CollectionError :=
  match Error r with
  | Some err => (st.1, {| Failures := <[Link r := err]> (Failures st.2) |})
  | None => ((st.1 ++ [Item r])%list, st.2)
  end.

(** [if err != nil { collectionError.Failures[link] = err }] of the
    walking goroutine. *)
Definition walkerWrite (link : string) (err : option error)
  (st : list DataStorageLineOfService * CollectionError)
  : list DataStorageLineOfService * CollectionError :=
  match err with
  | Some err => (st.1, {| Failures := <[link := err]> (Failures st.2) |})
  | None => st
  end.

(** The closure [get] of the retriever: fetch one member and send what
    came of it, with its link, on the channel. *)
Definition getReport (entityGet : EntityGet) (c : Client.t) (link : string)
  : exec GetResult :=
  o ← GetDataStorageLineOfService entityGet c link;
  Done {| Item := after o; Link := link; Error := returned o |}.

Definition isError (err : option error) : bool :=
  match err with
  | Some _ => true
  | None => false
  end.

(** The two writes to the failure mapping that nothing orders: that of the
    walker, made when the walk failed, and that of the aggregator for the
    last report received, made when that fetch failed.  When both are made
    and the second starts amid the first, the runtime stops the process
    with [concurrent map writes]. *)
Definition overlappingWrites (sch : Scheduler) (err : option error)
  (received : list GetResult) : bool :=
  match walkerTiming sch with
  | AmidLastReport =>
      isError err &&
      existsb (fun r => isError (Error r))
              (drop (length received - 1) received)
  | _ => false
  end.

Definition ListReferencedDataStorageLineOfServices (sch : Scheduler)
  (enumerate : Client.t -> string -> Walk) (entityGet : EntityGet)
  (c : Client.t) (link : string)
  : exec (list DataStorageLineOfService * option CollectionError) :=
  let result : list DataStorageLineOfService := [] in
  if bool_decide (link = "") then Done (result, None)
  else
    let collectionError := NewCollectionError in
    let get := getReport entityGet c in
    '(reports, err) ← CollectList enumerate get c link;
    let received := arrival sch reports in
    if overlappingWrites sch err received then Panics
    else
      let n := length received in
      let st := foldl aggregate (result, collectionError)
                      (take (n - 1) received) in
      let st :=
        match walkerTiming sch with
        | BeforeLastReport =>
            foldl aggregate (walkerWrite link err st) (drop (n - 1) received)
        | _ =>
            walkerWrite link err (foldl aggregate st (drop (n - 1) received))
        end in
      if Empty st.2 then Done (st.1, None)
      else Done (st.1, Some st.2).

(** The names under which the diff of a record may report a change: the
    names of its exported fields that are no pointer and are not tagged
    [-], an embedded record standing for the names of its own fields. *)
Fixpoint payloadNames (v : value) : list string :=
  match v with
  | VStruct fields =>
      flat_map
        (fun fv =>
           if negb (Exported fv.1) then []
           else if bool_decide (TypeKind fv.2 = reflect.Ptr) then []
           else if bool_decide (Tag fv.1 = "-") then []
           else if Anonymous fv.1 && bool_decide (TypeKind fv.2 = reflect.Struct)
           then payloadNames fv.2
           else [fieldNameOf fv.1])
        fields
  | _ => []
  end.

(** A boolean, an integer or a string, in a field of its own type or of
    interface type. *)
Definition scalar (v : value) : bool :=
  match v with
  | VBool _ | VInt _ | VString _ => true
  | VIface (Some (_, VBool _)) | VIface (Some (_, VInt _))
  | VIface (Some (_, VString _)) => true
  | _ => false
  end.

(** ** The query filter *)

(** [Filter] is a string; an option rewrites the filter it is given. *)
Definition Filter : Type := string.

Definition FilterOption : Type := Filter -> Filter.

(** [fmt.Sprintf("%s$skip=%d", *e, skipNum)] *)
Definition WithSkip (skipNum : Z) : FilterOption :=
  fun e => e ++ "$skip=" ++ Itoa skipNum.

Definition WithTop (topNum : Z) : FilterOption :=
  fun e => e ++ "$top=" ++ Itoa topNum.

(** The loop of [SetFilter], from the option of index [idx] on. *)
Fixpoint applyOptions (lastIdx : Z) (opts : list FilterOption) (idx : Z)
  (e : Filter) : Filter :=
  match opts with
  | [] => e
  | opt :: rest =>
      let e := opt e in
      let e := if bool_decide (idx < lastIdx)%Z then e ++ "&" else e in
      applyOptions lastIdx rest (idx + 1) e
  end.

Definition SetFilter (e : Filter) (opts : list FilterOption) : Filter :=
  let e := "?" in
  let lastIdx := (Z.of_nat (length opts) - 1)%Z in
  applyOptions lastIdx opts 0 e.

Definition ClearFilter (e : Filter) : Filter := "".

(** * Properties *)

(** ** Induction through the nested lists and maps *)

Lemma list_sum_elem_le (l : list nat) (n : nat) :
  n ∈ l -> (n ≤ list_sum l)%nat.
Proof.
  induction 1 as [|? ? ? ? IH]; simpl; lia.
Qed.

Lemma map_fold_size_lookup {A : Type} (sz : A -> nat) (m : gmap string A)
  (k : string) (v : A) :
  m !! k = Some v ->
  (sz v ≤ map_fold (fun _ v acc => sz v + acc) 0 m)%nat.
Proof.
  intros Hk.
  rewrite (map_fold_delete_L _ _ k v m); [lia | intros; lia | done].
Qed.

Lemma value_ind' (P : value -> Prop) :
  (forall b, P (VBool b)) ->
  (forall n, P (VInt n)) ->
  (forall f, P (VFloat f)) ->
  (forall s, P (VString s)) ->
  P (VPtr None) ->
  (forall p t, P t -> P (VPtr (Some (p, t)))) ->
  P (VSlice None) ->
  (forall p xs, Forall P xs -> P (VSlice (Some (p, xs)))) ->
  P (VMap None) ->
  (forall p m, map_Forall (fun _ v => P v) m -> P (VMap (Some (p, m)))) ->
  (forall fs, Forall (fun fv => P fv.2) fs -> P (VStruct fs)) ->
  P (VIface None) ->
  (forall t x, P x -> P (VIface (Some (t, x)))) ->
  forall v, P v.
Proof.
  intros Hb Hi Hf Hs Hp0 Hp Hs0 Hsl Hm0 Hm Hst Hif0 Hif v.
  remember (value_size v) as n eqn:Hn.
  revert v Hn.
  induction n as [n IH] using lt_wf_ind.
  intros [b | z | f | s | [[p t]|] | [[p xs]|] | [[p m]|] | fs | [[t x]|]] Hn;
    auto.
  - apply Hp. apply (IH (value_size t)); [|done]. subst n. simpl. lia.
  - apply Hsl, Forall_forall. intros x Hx.
    apply (IH (value_size x)); [|done].
    subst n. simpl.
    assert (value_size x ∈ map value_size xs) as Hin
      by (apply list_elem_of_fmap; eauto).
    apply list_sum_elem_le in Hin. lia.
  - apply Hm. intros k v Hk.
    apply (IH (value_size v)); [|done].
    subst n. simpl.
    pose proof (map_fold_size_lookup value_size m k v Hk). lia.
  - apply Hst, Forall_forall. intros fx Hx.
    apply (IH (value_size fx.2)); [|done].
    subst n. simpl.
    assert (value_size fx.2 ∈ map (fun fv => value_size fv.2) fs) as Hin.
    { apply list_elem_of_fmap. exists fx. done. }
    apply list_sum_elem_le in Hin. lia.
  - apply Hif. apply (IH (value_size x)); [|done]. subst n. simpl. lia.
Qed.

(** Induction through the nested records alone. *)
Lemma struct_ind (P : value -> Prop) :
  (forall v, TypeKind v ≠ reflect.Struct -> P v) ->
  (forall fs, Forall (fun fv => P fv.2) fs -> P (VStruct fs)) ->
  forall v, P v.
Proof.
  intros Hother Hst v.
  induction v using value_ind'; try (by apply Hother); by apply Hst.
Qed.

(** ** [sameValue] is equality *)






(** ** [==] and [reflect.DeepEqual] of a value with itself *)



(** Two slices that hold a NaN are deeply equal when they are the same
    slice, and are not otherwise. *)
Lemma DeepEqual_slices_of_NaN :
  DeepEqual (VSlice (Some (1%N, [VFloat S754_nan])))
            (VSlice (Some (1%N, [VFloat S754_nan]))) = true /\
  DeepEqual (VSlice (Some (1%N, [VFloat S754_nan])))
            (VSlice (Some (2%N, [VFloat S754_nan]))) = false.
Proof. split; reflexivity. Qed.

(** *** Deep equality is equality of contents *)





Lemma elem_of_flat_map {A B} (g : A -> list B) (l : list A) (y : B) :
  y ∈ flat_map g l <-> exists x, x ∈ l /\ y ∈ g x.
Proof.
  rewrite list_elem_of_In, in_flat_map. split.
  - intros (x & Hx & Hy). exists x. by rewrite !list_elem_of_In.
  - intros (x & Hx & Hy). exists x. by rewrite <- !list_elem_of_In.
Qed.



Lemma ifaceEqual_spec (a b : value) :
  scalar a = true -> (ifaceEqual a b = true <-> a = b).
Proof.
  intros Ha. split.
  - destruct a as [x | x | x | x | | | | | [[s x]|]]; try done;
      destruct b as [y | y | y | y | | | | | [[t y]|]]; simpl; try done;
      try (rewrite bool_decide_eq_true; by intros ->).
    rewrite andb_true_iff, bool_decide_eq_true. intros [-> Heq].
    destruct x, y; simpl in *; try done;
      apply bool_decide_eq_true in Heq; by subst.
  - intros <-.
    destruct a as [x | x | x | x | | | | | [[s []]|]]; simpl in *; try done;
      by rewrite ?bool_decide_true.
Qed.


(** ** The structural diff *)

Lemma splice_union (structPayload payload : gmap string value) :
  splice structPayload payload = structPayload ∪ payload.
Proof.
  unfold splice.
  apply (map_fold_weak_ind (fun r m => r = m ∪ payload)).
  - by rewrite (left_id_L ∅ (∪)).
  - intros k v m r _ ->. by rewrite insert_union_l.
Qed.



Lemma forFields_app visit (pre rest : list (StructField * value)) i payload :
  forFields visit (pre ++ rest)%list i payload =
  (p ← forFields visit pre i payload;
   forFields visit rest (i + length pre) p).
Proof.
  revert i payload. induction pre as [|[f x] pre IH]; intros i payload; simpl.
  - by rewrite Nat.add_0_r.
  - destruct (visit i payload f x) as [p|]; simpl; [|done].
    rewrite IH. by replace (S i + length pre) with (i + S (length pre)) by lia.
Qed.


(** An invariant of the payload that every visit keeps holds at the end
    of the loop. *)
Lemma forFields_invariant (I : gmap string value -> Prop) visit
  (fs : list (StructField * value)) i payload result :
  (forall j p f v p', (f, v) ∈ fs -> I p -> visit j p f v = Done p' -> I p') ->
  I payload ->
  forFields visit fs i payload = Done result ->
  I result.
Proof.
  revert i payload. induction fs as [|[f v] fs IH]; intros i payload Hstep H0.
  - simpl. by intros [= <-].
  - simpl. destruct (visit i payload f v) as [p'|] eqn:Hv; simpl; [|done].
    apply IH.
    + intros j p g w p'' Hin. apply Hstep. by right.
    + eapply Hstep; [by left | exact H0 | exact Hv].
Qed.













Definition half : spec_float := S754_finite false 1 (-1).





(** The diff of a record is the diff of its leading fields followed by the
    visit of the last one. *)
Lemma diff_last_field (pre : list (StructField * value)) (field : StructField)
  (originalField updatedEntity : value) (payload : gmap string value) :
  getPatchPayloadFromUpdate (VStruct pre) updatedEntity = Done payload ->
  getPatchPayloadFromUpdate (VStruct (pre ++ [(field, originalField)]))
                            updatedEntity =
  visitField getPatchPayloadFromUpdate updatedEntity (length pre) payload
             field originalField.
Proof.
  simpl. intros Hpre. rewrite forFields_app, Hpre. simpl.
  by destruct (visitField _ _ _ _ _ _).
Qed.


(** An embedded record and a list of members, both changed. *)
Definition embeddedField : StructField := mkField "Entity" "" true true.
Definition membersField : StructField := mkField "Members" "Members" true false.

Definition baseRecord (name : string) : value :=
  VStruct [ (mkField "Name" "Name" true false, VString name) ].

Definition listRecord (name : string) (p : addr) (ms : list value) : value :=
  VStruct [ (embeddedField, baseRecord name);
            (membersField, VSlice (Some (p, ms))) ].


(** ** Update *)

Lemma found_spec (allowedUpdates : list string) (field : string) :
  existsb (fun name => bool_decide (name = field)) allowedUpdates = true
  <-> field ∈ allowedUpdates.
Proof.
  rewrite existsb_exists. split.
  - intros (name & Hin & Heq). apply bool_decide_eq_true in Heq. subst.
    by apply list_elem_of_In.
  - intros Hin. exists field. split; [by apply list_elem_of_In|].
    by apply bool_decide_eq_true.
Qed.

Lemma firstReadOnly_Some allowedUpdates fields field :
  firstReadOnly allowedUpdates fields = Some field ->
  field ∈ fields /\ field ∉ allowedUpdates.
Proof.
  induction fields as [|f fields IH]; simpl; [done|].
  destruct (existsb _ allowedUpdates) eqn:Hfound; simpl.
  - intros H. destruct (IH H). split; [by right | done].
  - intros [= ->]. split; [by left|].
    intros Hin. apply found_spec in Hin. congruence.
Qed.

Lemma firstReadOnly_None allowedUpdates fields :
  firstReadOnly allowedUpdates fields = None <->
  (forall field, field ∈ fields -> field ∈ allowedUpdates).
Proof.
  induction fields as [|f fields IH]; simpl.
  - split; [|done]. intros _ field Hin. by apply elem_of_nil in Hin.
  - destruct (existsb _ allowedUpdates) eqn:Hfound; simpl.
    + rewrite IH. apply found_spec in Hfound. split.
      * intros H field [->|Hin]%elem_of_cons; auto.
      * intros H field Hin. apply H. by right.
    + split; [done|]. intros H.
      assert (f ∈ allowedUpdates) as Hin by (apply H; by left).
      apply found_spec in Hin. congruence.
Qed.

Lemma range_fields (rt : MapRange) (payload : gmap string value)
  (field : string) :
  field ∈ fst <$> rangeOf rt payload <-> field ∈ dom payload.
Proof.
  rewrite (rangeOf_perm rt _ payload), elem_of_dom.
  rewrite list_elem_of_fmap. split.
  - intros ([k v] & -> & Hin). apply elem_of_map_to_list in Hin. eauto.
  - intros [v Hv]. exists (field, v). split; [done|].
    by apply elem_of_map_to_list.
Qed.

(** C1.  [Update] first computes the payload of the diff.  If a field of
    the payload is not in [allowedUpdates], it returns the read-only error
    naming such a field and sends nothing; if the payload is empty it
    sends nothing and returns nil; otherwise it is the call of [Patch] with
    the payload; and a request is sent only in that last case. *)
Theorem Update_validates_before_sending (rt : MapRange) (e : Entity)
  (originalEntity updatedEntity : value) (allowedUpdates : list string)
  (payload : gmap string value) :
  getPatchPayloadFromUpdate originalEntity updatedEntity = Done payload ->
  let update := Update rt e originalEntity updatedEntity allowedUpdates in
  ((exists field, field ∈ dom payload /\ field ∉ allowedUpdates) ->
   exists field, field ∈ dom payload /\ (field ∉ allowedUpdates) /\
     update = Done {| returned :=
                        Some (Errorf (field ++ " field is read only"));
                      after := e; sent := [] |}) /\
  (payload = ∅ ->
   update = Done {| returned := None; after := e; sent := [] |}) /\
  (payload ≠ ∅ ->
   (forall field, field ∈ dom payload -> field ∈ allowedUpdates) ->
   update = Patch e (ODataID e) (VMap (Some (made, payload)))) /\
  (forall o, update = Done o -> sent o ≠ [] ->
   payload ≠ ∅ /\
   (forall field, field ∈ dom payload -> field ∈ allowedUpdates) /\
   exists header,
     sent o = [PATCH (ODataID e) (VMap (Some (made, payload))) header]).
Proof.
  intros Hdiff update. unfold update, Update. rewrite Hdiff. simpl.
  destruct (firstReadOnly allowedUpdates (fst <$> rangeOf rt payload))
    as [field|] eqn:Hfirst.
  - apply firstReadOnly_Some in Hfirst as [Hin Hout].
    apply range_fields in Hin.
    split; [|split; [|split]].
    + intros _. by exists field.
    + intros ->. by rewrite dom_empty_L in Hin.
    + intros _ Hall. by specialize (Hall field Hin).
    + intros o [= <-] Hsent. done.
  - pose proof (proj1 (firstReadOnly_None _ _) Hfirst) as Hall.
    assert (forall field, field ∈ dom payload -> field ∈ allowedUpdates)
      as Hall'.
    { intros field Hin. apply Hall. by apply range_fields. }
    assert (payload ≠ ∅ <-> (0 < size payload)%nat) as Hsize.
    { rewrite <- map_size_empty_iff. lia. }
    split; [|split; [|split]].
    + intros (field & Hin & Hout). by specialize (Hall' field Hin).
    + intros ->. by rewrite map_size_empty.
    + intros Hne _. rewrite bool_decide_true; [done|]. by apply Hsize.
    + case_bool_decide as Hsz.
      * intros o Ho Hsent. split; [by apply Hsize|]. split; [done|].
        unfold Patch in Ho. destruct (ifMatch e) as [e' header].
        destruct (client e'); [|done].
        destruct (Client.PatchWithHeaders _ _ _ _);
          injection Ho as <-; by eexists.
      * intros o [= <-] Hsent. done.
Qed.

(** A transport stub that answers every request with the same headers and
    the same JSON object. *)
Definition stubResponse (header : gmap string (list string))
  (members : list (string * json)) : Response :=
  {| Header := header;
     Body := {| ReadAll := inl (Some (DocObject members)); Close := None |} |}.

Definition stubClient (header : gmap string (list string))
  (members : list (string * json)) : Client.t :=
  {| Client.Get := fun _ => inl (stubResponse header members);
     Client.PatchWithHeaders := fun _ _ _ => inl (stubResponse ∅ []);
     Client.PostWithHeaders := fun _ _ _ => inl (stubResponse ∅ []) |}.

(** An entity as a [Get] leaves it: bound to a client, with a token. *)
Definition fetchedEntity (token : string) (strip : bool) : Entity :=
  {| ODataID := "/redfish/v1/Chassis/1"; ID := "1"; Name_ := "rack";
     client := Some (stubClient ∅ []); etag := token;
     stripEtagQuotes := strip; disableEtagMatch := false |}.

Lemma Update_validates_before_sending_witness :
  Update rangeInOrder (fetchedEntity "" false)
         (baseRecord "a") (baseRecord "b") ["Id"]
  = Done {| returned := Some (Errorf "Name field is read only");
            after := fetchedEntity "" false; sent := [] |}.
Proof.
  assert (getPatchPayloadFromUpdate (baseRecord "a") (baseRecord "b")
          = Done (<["Name" := VString "b"]> ∅)) as Hdiff
    by reflexivity.
  destruct (Update_validates_before_sending rangeInOrder
              (fetchedEntity "" false) (baseRecord "a") (baseRecord "b")
              ["Id"] (<["Name" := VString "b"]> ∅) Hdiff)
    as [Hreadonly _].
  destruct Hreadonly as (field & Hin & _ & Hupdate).
  - exists "Name". split.
    + apply elem_of_dom. eexists. apply lookup_insert_eq.
    + intros Hin. apply found_spec in Hin. discriminate.
  - apply elem_of_dom in Hin as [v Hv].
    destruct (decide (field = "Name")) as [->|Hne].
    + exact Hupdate.
    + rewrite lookup_insert_ne in Hv by done. done.
Defined.

(** ** Patch and Post *)

Lemma ifMatch_flags (e : Entity) :
  ODataID (ifMatch e).1 = ODataID e /\
  ID (ifMatch e).1 = ID e /\
  Name_ (ifMatch e).1 = Name_ e /\
  client (ifMatch e).1 = client e /\
  stripEtagQuotes (ifMatch e).1 = stripEtagQuotes e /\
  disableEtagMatch (ifMatch e).1 = disableEtagMatch e.
Proof.
  unfold ifMatch.
  destruct (negb (bool_decide (etag e = "")) && negb (disableEtagMatch e));
    [|done].
  destruct (stripEtagQuotes e) eqn:Hs; simpl; by rewrite ?Hs.
Qed.

Lemma ifMatch_etag (e : Entity) :
  etag (ifMatch e).1 =
  if negb (bool_decide (etag e = "")) && negb (disableEtagMatch e)
     && stripEtagQuotes e
  then Trim (etag e) else etag e.
Proof.
  unfold ifMatch.
  destruct (negb (bool_decide (etag e = "")) && negb (disableEtagMatch e));
    [|done].
  destruct (stripEtagQuotes e) eqn:Hs; simpl; by rewrite ?Hs.
Qed.

Lemma Patch_after (e : Entity) uri payload o :
  Patch e uri payload = Done o -> after o = (ifMatch e).1.
Proof.
  unfold Patch. destruct (ifMatch e) as [e' header]. simpl.
  destruct (client e'); [|done].
  by destruct (Client.PatchWithHeaders _ _ _ _); intros [= <-].
Qed.

Lemma Post_after (e : Entity) uri payload o :
  Post e uri payload = Done o -> after o = (ifMatch e).1.
Proof.
  unfold Post. destruct (ifMatch e) as [e' header]. simpl.
  destruct (client e'); [|done].
  by destruct (Client.PostWithHeaders _ _ _ _); intros [= <-].
Qed.

(** C3, as the code has it.  With version checking in force and a token
    known, [Patch] sends the stored token as the value of [If-Match]: as
    it is stored when the stripping is off, and with its leading and
    trailing quotes removed when the stripping is on.  It adds no quotes:
    the header is the quoted ["abc123"] only when the stored token, as
    taken from the [Etag] header, carries the quotes itself. *)
Theorem Patch_sends_the_stored_token (e : Entity) (c : Client.t)
  (uri : string) (payload : value) :
  client e = Some c ->
  disableEtagMatch e = false ->
  etag e ≠ "" ->
  exists o,
    Patch e uri payload = Done o /\
    sent o = [PATCH uri payload
                (<["If-Match" :=
                     if stripEtagQuotes e then Trim (etag e) else etag e]> ∅)]
    /\ (etag e = quoted "abc123" ->
        sent o = [PATCH uri payload
                    (<["If-Match" :=
                         if stripEtagQuotes e then "abc123"
                         else quoted "abc123"]> ∅)]).
Proof.
  intros Hc Hdis Htag.
  assert (ifMatch e =
          (if stripEtagQuotes e then setEtag e (Trim (etag e)) else e,
           <["If-Match" :=
               if stripEtagQuotes e then Trim (etag e) else etag e]> ∅))
    as Hif.
  { unfold ifMatch. rewrite Hdis, (bool_decide_false _ Htag). simpl.
    by destruct (stripEtagQuotes e). }
  unfold Patch. rewrite Hif.
  assert (client (if stripEtagQuotes e then setEtag e (Trim (etag e)) else e)
          = Some c) as -> by (by destruct (stripEtagQuotes e)).
  destruct (Client.PatchWithHeaders _ _ _ _); eexists;
    (split; [reflexivity|]); simpl; (split; [reflexivity|]);
    intros ->; by destruct (stripEtagQuotes e).
Qed.

Lemma Patch_sends_the_stored_token_witness :
  exists o,
    Patch (fetchedEntity (quoted "abc123") true) "/redfish/v1/Chassis/1"
          (VMap (Some (made, ∅))) = Done o /\
    sent o = [PATCH "/redfish/v1/Chassis/1" (VMap (Some (made, ∅)))
                    (<["If-Match" := "abc123"]> ∅)].
Proof.
  destruct (Patch_sends_the_stored_token
              (fetchedEntity (quoted "abc123") true) (stubClient ∅ [])
              "/redfish/v1/Chassis/1" (VMap (Some (made, ∅)))
              eq_refl eq_refl ltac:(discriminate)) as (o & Ho & _ & Hsent).
  exists o. split; [exact Ho|]. exact (Hsent eq_refl).
Defined.

(** C3, as the claim states it, fails: with the token [abc123] stored and
    the stripping off, the header sent is [abc123], not the token between
    quotes. *)
Lemma Patch_adds_no_quotes :
  ~ (forall (e : Entity) (c : Client.t) (uri : string) (payload : value),
       client e = Some c ->
       disableEtagMatch e = false ->
       etag e = "abc123" ->
       exists o,
         Patch e uri payload = Done o /\
         (stripEtagQuotes e = false ->
          sent o = [PATCH uri payload
                      (<["If-Match" := quoted "abc123"]> ∅)]) /\
         (stripEtagQuotes e = true ->
          sent o = [PATCH uri payload (<["If-Match" := "abc123"]> ∅)])).
Proof.
  intros Hclaim.
  destruct (Hclaim (fetchedEntity "abc123" false) (stubClient ∅ [])
              "/redfish/v1/Chassis/1" (VMap (Some (made, ∅)))
              eq_refl eq_refl eq_refl) as (o & Ho & Hoff & _).
  specialize (Hoff eq_refl).
  injection Ho as <-.
  apply (f_equal (fun l => match l with
                           | [PATCH _ _ header] => header !! "If-Match"
                           | _ => None
                           end)) in Hoff.
  simpl in Hoff. rewrite !lookup_insert_eq in Hoff. discriminate.
Qed.

(** ** The concurrency-control state *)

(** Decoding an object leaves alone whatever no field of the table
    assigns. *)
Lemma findField_elem {T} (fields : list (fieldCodec T)) key f :
  findField fields key = Some f ->
  f ∈ fields /\
  (jsonName f = key \/ foldName (jsonName f) = foldName key).
Proof.
  unfold findField.
  destruct (find _ fields) as [g|] eqn:Hexact.
  - intros [= <-]. apply find_some in Hexact as [Hin Heq].
    apply bool_decide_eq_true in Heq. split; [by apply list_elem_of_In | auto].
  - intros Hfold. apply find_some in Hfold as [Hin Heq].
    apply bool_decide_eq_true in Heq. split; [by apply list_elem_of_In | auto].
Qed.

Lemma decodeObject_frame {T A} (proj : T -> A) (fields : list (fieldCodec T)) :
  (forall f, f ∈ fields -> forall j t, proj (store f (goType f) j t).1 = proj t) ->
  forall members t, proj (decodeObject fields members t).1 = proj t.
Proof.
  intros Hframe members t. unfold decodeObject.
  change t with ((t, @None error).1) at 2.
  generalize (t, @None error). clear t.
  induction members as [|kv members IH]; intros st; simpl; [done|].
  rewrite IH. unfold decodeMember.
  destruct (findField fields kv.1) as [f|] eqn:Hf; [|done].
  apply findField_elem in Hf as [Hin _].
  specialize (Hframe f Hin kv.2 st.1).
  by destruct (store f (goType f) kv.2 st.1).
Qed.

(** [Get] assigns the fields of the entity that are not exported only at
    its end; decoding never touches them. *)
Definition unexported (e : Entity)
  : option Client.t * string * bool * bool :=
  (client e, etag e, stripEtagQuotes e, disableEtagMatch e).

Lemma Entity_decode_unexported members (e : Entity) :
  unexported (UnmarshalJSON members e).1 = unexported e.
Proof.
  simpl. apply decodeObject_frame.
  intros f Hin j t.
  repeat (apply elem_of_cons in Hin as [->|Hin]; [by destruct j|]).
  by apply elem_of_nil in Hin.
Qed.

Lemma DataStorageLineOfService_decode_failure members d err :
  (UnmarshalJSON members d).2 = Some err ->
  (UnmarshalJSON members d).1 = d.
Proof.
  simpl. unfold DataStorageLineOfService_UnmarshalJSON.
  destruct (decodeObject _ _ _) as [t [e|]]; simpl; done.
Qed.

(** A record whose decoding, when it fails, leaves the token alone. *)
Class KeepsToken (T : Type) `{Resource T} : Prop :=
  keeps_token : forall members (t : T) err,
    (UnmarshalJSON members t).2 = Some err ->
    etag (entityOf (UnmarshalJSON members t).1) = etag (entityOf t).

Global Instance Entity_KeepsToken : KeepsToken Entity.
Proof.
  intros members e err _.
  pose proof (Entity_decode_unexported members e) as H.
  unfold unexported in H. simpl in *. congruence.
Qed.

Global Instance DataStorageLineOfService_KeepsToken
  : KeepsToken DataStorageLineOfService.
Proof.
  intros members d err Herr.
  by rewrite (DataStorageLineOfService_decode_failure _ _ _ Herr).
Qed.

Lemma Unmarshal_keeps_token `{KeepsToken T} (data : document) (t : T) err :
  (Unmarshal data t).2 = Some err ->
  etag (entityOf (Unmarshal data t).1) = etag (entityOf t).
Proof.
  destruct data; simpl; try done. apply keeps_token.
Qed.

Lemma MapCheck_Get_failure_keeps_token `{KeepsToken T} rt c uri (t : T) o err :
  MapCheck.Get rt c uri t = Done o ->
  returned o = Some err ->
  etag (entityOf (after o)) = etag (entityOf t).
Proof.
  unfold MapCheck.Get.
  destruct (Client.Get c uri) as [resp|?]; [|by intros [= <-]].
  destruct (ReadAll (Body resp)) as [data|?]; [|by intros [= <-]].
  destruct (unmarshalMap data) as [check|?]; [|by intros [= <-]].
  destruct (Unmarshal _ t) as [t' [e|]] eqn:Hdec.
  - intros [= <-] _. simpl.
    pose proof (Unmarshal_keeps_token
                  (Marshal (MapCheck.reshape rt <$> check)) t e) as Hk.
    rewrite Hdec in Hk. by apply Hk.
  - destruct (Header resp !! "Etag") as [[|tag ?]|]; simpl; try done;
      by intros [= <-].
Qed.

Lemma StructCheck_Get_failure_keeps_token `{KeepsToken T} c uri (t : T) o err :
  StructCheck.Get c uri t = Done o ->
  returned o = Some err ->
  etag (entityOf (after o)) = etag (entityOf t).
Proof.
  unfold StructCheck.Get.
  destruct (Client.Get c uri) as [resp|?]; [|by intros [= <-]].
  destruct (ReadAll (Body resp)) as [data|?]; [|by intros [= <-]].
  destruct (StructCheck.unmarshalCheck data) as [check|?]; [|by intros [= <-]].
  destruct (Unmarshal _ t) as [t' [e|]] eqn:Hdec.
  - intros [= <-] _. simpl.
    match type of Hdec with Unmarshal ?d _ = _ =>
      pose proof (Unmarshal_keeps_token d t e) as Hk end.
    rewrite Hdec in Hk. by apply Hk.
  - destruct (Header resp !! "Etag") as [[|tag ?]|]; simpl; try done;
      by intros [= <-].
Qed.

(** C4, as the code has it.  [Patch] and [Post] leave the client and the
    two flags as they were.  They leave the stored token as it was when
    the stripping is off, when version checking is disabled or when no
    token is known; otherwise they store the token without its leading and
    trailing quotes.  A [Get] that returns an error leaves the token as it
    was. *)
Theorem writes_keep_the_flags_and_trim_the_token :
  (forall (e : Entity) (uri : string) (payload : value) (o : outcome Entity),
     Patch e uri payload = Done o \/ Post e uri payload = Done o ->
     client (after o) = client e /\
     stripEtagQuotes (after o) = stripEtagQuotes e /\
     disableEtagMatch (after o) = disableEtagMatch e /\
     etag (after o) =
       (if negb (bool_decide (etag e = "")) && negb (disableEtagMatch e)
           && stripEtagQuotes e
        then Trim (etag e) else etag e)) /\
  (forall (rt : MapRange) (c : Client.t) (uri : string)
          (d : DataStorageLineOfService)
          (o : outcome DataStorageLineOfService) (err : error),
     MapCheck.Get rt c uri d = Done o \/ StructCheck.Get c uri d = Done o ->
     returned o = Some err ->
     etag (Entity' (after o)) = etag (Entity' d)).
Proof.
  split.
  - intros e uri payload o Ho.
    assert (after o = (ifMatch e).1) as ->
      by (destruct Ho; eauto using Patch_after, Post_after).
    pose proof (ifMatch_flags e) as (_ & _ & _ & ? & ? & ?).
    by rewrite ifMatch_etag.
  - intros rt c uri d o err [Ho|Ho] Herr.
    + exact (MapCheck_Get_failure_keeps_token rt c uri d o err Ho Herr).
    + exact (StructCheck_Get_failure_keeps_token c uri d o err Ho Herr).
Qed.

Lemma writes_keep_the_flags_and_trim_the_token_witness :
  exists o,
    Patch (fetchedEntity (quoted "abc123") true) "/redfish/v1/Chassis/1"
          (VMap (Some (made, ∅))) = Done o /\
    stripEtagQuotes (after o) = true /\ etag (after o) = "abc123".
Proof.
  eexists. split; [reflexivity|].
  destruct (proj1 writes_keep_the_flags_and_trim_the_token
              (fetchedEntity (quoted "abc123") true) "/redfish/v1/Chassis/1"
              (VMap (Some (made, ∅))) _ (or_introl eq_refl))
    as (_ & Hstrip & _ & Htag).
  split; [exact Hstrip | exact Htag].
Defined.

(** C4, as the claim states it, fails: a [Patch] with the stripping on
    replaces the stored token. *)
Lemma Patch_rewrites_the_token :
  ~ (forall (e : Entity) (uri : string) (payload : value) (o : outcome Entity),
       Patch e uri payload = Done o ->
       etag (after o) = etag e /\
       stripEtagQuotes (after o) = stripEtagQuotes e /\
       disableEtagMatch (after o) = disableEtagMatch e).
Proof.
  intros Hclaim.
  destruct (Hclaim (fetchedEntity (quoted "abc123") true)
              "/redfish/v1/Chassis/1" (VMap (Some (made, ∅))) _ eq_refl)
    as [Htag _].
  discriminate Htag.
Qed.

(** ** The reshaping of the body in the first revision of [Get] *)

Lemma asFloat64_Some o n : asFloat64 o = Some n <-> o = Some (JNumber n).
Proof.
  destruct o as [[]|]; simpl; split; intros H; try done;
    by injection H as ->.
Qed.

Lemma asMap_Some o m : asMap o = Some m <-> o = Some (JObject m).
Proof.
  destruct o as [[]|]; simpl; split; intros H; try done;
    by injection H as ->.
Qed.

Lemma numberToString_dom key (m : gmap string json) :
  dom (numberToString key m) = dom m.
Proof.
  unfold numberToString. destruct (asFloat64 (m !! key)) as [x|] eqn:Hx; [|done].
  apply asFloat64_Some in Hx. by apply dom_insert_lookup_L.
Qed.

Lemma numberToString_lookup_ne key (m : gmap string json) k :
  k ≠ key -> numberToString key m !! k = m !! k.
Proof.
  intros Hne. unfold numberToString.
  destruct (asFloat64 (m !! key)); [|done]. by rewrite lookup_insert_ne.
Qed.

Lemma numberToString_number key (m : gmap string json) n :
  m !! key = Some (JNumber n) ->
  numberToString key m !! key = Some (JString (Itoa (int n))).
Proof.
  intros Hn. unfold numberToString. rewrite Hn. simpl.
  by rewrite lookup_insert_eq.
Qed.

Lemma numberToString_not_number key (m : gmap string json) :
  (forall n, m !! key ≠ Some (JNumber n)) -> numberToString key m = m.
Proof.
  intros Hn. unfold numberToString.
  destruct (asFloat64 (m !! key)) as [x|] eqn:Hx; [|done].
  apply asFloat64_Some in Hx. by destruct (Hn x).
Qed.

Lemma wrapInSlice_dom key (m : gmap string json) :
  dom (wrapInSlice key m) = dom m.
Proof.
  unfold wrapInSlice. destruct (asMap (m !! key)) as [x|] eqn:Hx; [|done].
  apply asMap_Some in Hx. rewrite insert_delete_eq.
  by apply dom_insert_lookup_L.
Qed.

Lemma wrapInSlice_lookup_ne key (m : gmap string json) k :
  k ≠ key -> wrapInSlice key m !! k = m !! k.
Proof.
  intros Hne. unfold wrapInSlice.
  destruct (asMap (m !! key)); [|done].
  by rewrite lookup_insert_ne, lookup_delete_ne.
Qed.

Lemma numberToString_lookup_congr key (m m' : gmap string json) :
  m !! key = m' !! key ->
  numberToString key m !! key = numberToString key m' !! key.
Proof.
  intros Heq. unfold numberToString. rewrite Heq.
  destruct (asFloat64 (m' !! key)); [|done]. by rewrite !lookup_insert_eq.
Qed.

Lemma numberToString_lookup_idem key (m : gmap string json) :
  numberToString key (numberToString key m) !! key
  = numberToString key m !! key.
Proof.
  destruct (m !! key) as [[| | n | | |]|] eqn:Hm;
    try (rewrite (numberToString_not_number key m) by congruence;
         by rewrite (numberToString_not_number key m) by congruence).
  rewrite (numberToString_not_number key (numberToString key m)); [done|].
  intros n'. by rewrite (numberToString_number _ _ _ Hm).
Qed.

(** A step of the reshaping that rewrites the member [key], when it finds
    it, and nothing else. *)
Definition rewritesOnly (key : string)
  (f : gmap string json -> gmap string json) : Prop :=
  forall m, dom (f m) = dom m /\ forall k, k ≠ key -> f m !! k = m !! k.

Lemma rewritesOnly_insert_found key (m : gmap string json) o v :
  m !! key = Some o ->
  dom (<[key := v]> m) = dom m /\
  forall k, k ≠ key -> <[key := v]> m !! k = m !! k.
Proof.
  intros Hk. split; [by apply dom_insert_lookup_L|].
  intros k Hne. by rewrite lookup_insert_ne.
Qed.

Lemma processors_rewritesOnly : rewritesOnly "Socket" MapCheck.processors.
Proof.
  intros m. split; [apply numberToString_dom|].
  intros k. apply numberToString_lookup_ne.
Qed.

Lemma pcieDevices_rewritesOnly : rewritesOnly "Id" MapCheck.pcieDevices.
Proof.
  intros m. split; [apply numberToString_dom|].
  intros k. apply numberToString_lookup_ne.
Qed.

Lemma memory_rewritesOnly : rewritesOnly "MemoryLocation" MapCheck.memory.
Proof.
  intros m. unfold MapCheck.memory.
  destruct (asMap (m !! "MemoryLocation")) as [x|] eqn:Hx; [|done].
  apply asMap_Some in Hx. by eapply rewritesOnly_insert_found.
Qed.

Lemma networkAdapters_rewritesOnly :
  rewritesOnly "Controllers" MapCheck.networkAdapters.
Proof.
  intros m. split; [apply wrapInSlice_dom|].
  intros k. apply wrapInSlice_lookup_ne.
Qed.

Lemma storages_when b m : MapCheck.when b MapCheck.storages m = m.
Proof. by destruct b. Qed.

Lemma managers_rewritesOnly : rewritesOnly "Links" MapCheck.managers.
Proof.
  intros m. unfold MapCheck.managers.
  destruct (asMap (m !! "Links")) as [x|] eqn:Hx; [|done].
  apply asMap_Some in Hx. by eapply rewritesOnly_insert_found.
Qed.

(** The step for the drives rewrites [Id] and [Links]. *)
Lemma drives_dom rt m : dom (MapCheck.drives rt m) = dom m.
Proof.
  unfold MapCheck.drives.
  destruct (asMap (numberToString "Id" m !! "Links")) as [links|] eqn:Hl;
    [|apply numberToString_dom].
  destruct (asMap (links !! "Volumes")); [|apply numberToString_dom].
  apply asMap_Some in Hl.
  rewrite (dom_insert_lookup_L _ _ _ (mk_is_Some _ _ Hl)).
  apply numberToString_dom.
Qed.

Lemma drives_lookup rt m k :
  k ≠ "Links" ->
  MapCheck.drives rt m !! k = numberToString "Id" m !! k.
Proof.
  intros Hne. unfold MapCheck.drives.
  destruct (asMap (numberToString "Id" m !! "Links")) as [links|]; [|done].
  destruct (asMap (links !! "Volumes")); [|done].
  by rewrite lookup_insert_ne.
Qed.

Lemma when_dom b f m :
  (forall m, dom (f m) = dom m) -> dom (MapCheck.when b f m) = dom m.
Proof. intros Hf. destruct b; simpl; auto. Qed.

(** The reshaping keeps the members of the body: it rewrites values, and
    neither drops nor adds a key. *)
Lemma reshape_dom rt (check : gmap string json) :
  dom (MapCheck.reshape rt check) = dom check.
Proof.
  unfold MapCheck.reshape.
  destruct (asString (check !! "@odata.id")) as [odataId|]; [|done].
  repeat (rewrite when_dom;
          [| intros m;
             first [ apply managers_rewritesOnly
                   | apply networkAdapters_rewritesOnly
                   | apply memory_rewritesOnly
                   | apply pcieDevices_rewritesOnly
                   | apply drives_dom
                   | apply processors_rewritesOnly
                   | reflexivity ] ]).
  done.
Qed.

Lemma when_lookup b key f m k :
  rewritesOnly key f -> k ≠ key -> MapCheck.when b f m !! k = m !! k.
Proof. intros Hf Hne. destruct b; simpl; [by apply Hf | done]. Qed.

(** Where [Get] turns a numeric identifier into a string: the body names
    a drive or a PCIe device of the first chassis. *)
Definition normalizesId (odataId : string) : bool :=
  Contains odataId "/redfish/v1/Chassis/1/Drives/" ||
  Contains odataId "/redfish/v1/Chassis/1/PCIeDevices/".

Lemma reshape_Id rt (check : gmap string json) odataId :
  check !! "@odata.id" = Some (JString odataId) ->
  MapCheck.reshape rt check !! "Id" =
  if normalizesId odataId then numberToString "Id" check !! "Id"
  else check !! "Id".
Proof.
  intros Hid. unfold MapCheck.reshape, normalizesId. rewrite Hid. simpl.
  rewrite (when_lookup _ "Links" _ _ "Id" managers_rewritesOnly) by done.
  rewrite storages_when.
  rewrite (when_lookup _ "Controllers" _ _ "Id" networkAdapters_rewritesOnly)
    by done.
  rewrite (when_lookup _ "MemoryLocation" _ _ "Id" memory_rewritesOnly)
    by done.
  set (m1 := MapCheck.when _ MapCheck.processors check).
  assert (m1 !! "Id" = check !! "Id") as H1
    by (apply (when_lookup _ "Socket"); [apply processors_rewritesOnly|done]).
  destruct (Contains odataId "/redfish/v1/Chassis/1/Drives/");
    destruct (Contains odataId "/redfish/v1/Chassis/1/PCIeDevices/");
    simpl; unfold MapCheck.pcieDevices.
  - rewrite (numberToString_lookup_congr _ _ (numberToString "Id" m1))
      by (by apply drives_lookup).
    rewrite numberToString_lookup_idem.
    by apply numberToString_lookup_congr.
  - rewrite drives_lookup by done. by apply numberToString_lookup_congr.
  - by apply numberToString_lookup_congr.
  - done.
Qed.

(** ** Decoding the identifier *)

Lemma Marshal_members (m : gmap string json) :
  exists members,
    Marshal (Some m) = DocObject members /\
    NoDup members.*1 /\
    forall k v, (k, v) ∈ members <-> asEncoded <$> m !! k = Some v.
Proof.
  exists (merge_sort keyLe (map_to_list (asEncoded <$> m))). split; [done|].
  pose proof (merge_sort_Permutation keyLe (map_to_list (asEncoded <$> m)))
    as Hperm.
  split.
  - rewrite Hperm. apply NoDup_fst_map_to_list.
  - intros k v. rewrite Hperm, elem_of_map_to_list. by rewrite lookup_fmap.
Qed.

(** When the keys of an object are distinct, a projection of the target
    that only the member [key] assigns ends as that member sets it. *)
Lemma decodeObject_assigned {T A} (proj : T -> A)
  (fields : list (fieldCodec T)) (key : string) (v : json) (a : A) f
  (members : list (string * json)) :
  NoDup members.*1 ->
  (key, v) ∈ members ->
  findField fields key = Some f ->
  (forall t, proj (store f (goType f) v t).1 = a) ->
  (forall k w g t, (k, w) ∈ members -> k ≠ key ->
                   findField fields k = Some g ->
                   proj (store g (goType g) w t).1 = proj t) ->
  forall t, proj (decodeObject fields members t).1 = a.
Proof.
  intros Hnodup Hin Hf Hset Hframe t. unfold decodeObject.
  generalize (t, @None error). clear t.
  induction members as [|[k w] members IH] using rev_ind; intros st.
  - by apply elem_of_nil in Hin.
  - rewrite foldl_snoc. unfold decodeMember at 1. simpl.
    rewrite fmap_app in Hnodup. apply NoDup_app in Hnodup as (Hnd & Hdisj & _).
    destruct (decide (k = key)) as [->|Hne].
    + assert (w = v) as ->.
      { apply elem_of_app in Hin as [Hin|Hin].
        - exfalso. apply (Hdisj key).
          + apply list_elem_of_fmap. by exists (key, v).
          + simpl. by left.
        - apply list_elem_of_singleton in Hin. congruence. }
      rewrite Hf. specialize (Hset (foldl (decodeMember fields) st members).1).
      by destruct (store f (goType f) v _).
    + assert ((key, v) ∈ members) as Hin'.
      { apply elem_of_app in Hin as [Hin|Hin]; [done|].
        apply list_elem_of_singleton in Hin. congruence. }
      destruct (findField fields k) as [g|] eqn:Hg.
      * pose proof (Hframe k w g (foldl (decodeMember fields) st members).1)
          as Hfr.
        destruct (store g (goType g) w _) as [t1 ok]. simpl in *.
        rewrite Hfr; [| apply elem_of_app; right; by left | done | done].
        apply IH; [done | done |].
        intros k' w' g' t' Hin''. apply Hframe. apply elem_of_app. by left.
      * apply IH; [done | done |].
        intros k' w' g' t' Hin''. apply Hframe. apply elem_of_app. by left.
Qed.

(** Of the fields of a DataStorageLineOfService, only the one named [Id]
    assigns the identifier. *)
Lemma DataStorageLineOfService_ID_frame k w g t :
  foldName k ≠ "ID" ->
  findField dataStorageLineOfServiceFields k = Some g ->
  ID (Entity' (store g (goType g) w t).1) = ID (Entity' t).
Proof.
  intros Hk Hg. apply findField_elem in Hg as [Hin Hname].
  unfold dataStorageLineOfServiceFields, entityFields in Hin. simpl in Hin.
  repeat (apply elem_of_cons in Hin as [->|Hin];
          [ first [ by destruct w
                  | simpl; unfold storeInt; destruct w; try done;
                    by case_bool_decide
                  | exfalso; simpl in Hname;
                    destruct Hname as [<-|Hname]; by apply Hk ] |]).
  by apply elem_of_nil in Hin.
Qed.

Lemma int_in_range n : (- 2 ^ 63 ≤ n < 2 ^ 63)%Z -> int n = n.
Proof. intros Hn. unfold int. by rewrite bool_decide_true. Qed.

(** ** Get *)

(** The token a response carries: the first value of its [Etag] header. *)
Definition tokenOf (resp : Response) (e : Entity) : Entity :=
  match Header resp !! "Etag" with
  | Some (tag :: _) => setEtag e tag
  | _ => e
  end.

Ltac failed_get :=
  let H := fresh in intros [= <-] H; simpl in H; discriminate H.

(** What a [Get] of the first revision that returns nil has done. *)
Lemma MapCheck_Get_success `{Resource T} rt c uri (t : T) o :
  MapCheck.Get rt c uri t = Done o ->
  returned o = None ->
  exists resp data check t',
    Client.Get c uri = inl resp /\
    ReadAll (Body resp) = inl data /\
    unmarshalMap data = inl check /\
    Unmarshal (Marshal (MapCheck.reshape rt <$> check)) t = (t', None) /\
    after o = withEntity (SetClient (tokenOf resp (entityOf t')) c) t' /\
    sent o = [GET uri].
Proof.
  unfold MapCheck.Get, tokenOf.
  destruct (Client.Get c uri) as [resp|?] eqn:Hget; [|failed_get].
  destruct (ReadAll (Body resp)) as [data|?] eqn:Hread; [|failed_get].
  destruct (unmarshalMap data) as [check|?] eqn:Hcheck; [|failed_get].
  destruct (Unmarshal _ t) as [t' [e|]] eqn:Hdec; [failed_get|].
  destruct (Header resp !! "Etag") as [[|tag ?]|] eqn:Htag; simpl;
    try (intros ?; discriminate);
    intros [= <-] _; exists resp, data, check, t'; by rewrite Htag.
Qed.

Lemma StructCheck_Get_success `{Resource T} c uri (t : T) o :
  StructCheck.Get c uri t = Done o ->
  returned o = None ->
  exists resp data check t',
    Client.Get c uri = inl resp /\
    ReadAll (Body resp) = inl data /\
    StructCheck.unmarshalCheck data = inl check /\
    Unmarshal (StructCheck.marshalCheck check) t = (t', None) /\
    after o = withEntity (SetClient (tokenOf resp (entityOf t')) c) t' /\
    sent o = [GET uri].
Proof.
  unfold StructCheck.Get, tokenOf.
  destruct (Client.Get c uri) as [resp|?] eqn:Hget; [|failed_get].
  destruct (ReadAll (Body resp)) as [data|?] eqn:Hread; [|failed_get].
  destruct (StructCheck.unmarshalCheck data) as [check|?] eqn:Hcheck;
    [|failed_get].
  destruct (Unmarshal _ t) as [t' [e|]] eqn:Hdec; [failed_get|].
  destruct (Header resp !! "Etag") as [[|tag ?]|] eqn:Htag; simpl;
    try (intros ?; discriminate);
    intros [= <-] _; exists resp, data, check, t'; by rewrite Htag.
Qed.

Lemma tokenOf_ID resp e : ID (tokenOf resp e) = ID e.
Proof. unfold tokenOf. by destruct (Header resp !! "Etag") as [[|? ?]|]. Qed.

(** *** Mismatches *)

(** Once a mismatch has been recorded, the decoder keeps it to the end of
    the object. *)
Lemma decodeMember_keeps_error {T} (fields : list (fieldCodec T)) st kv e :
  st.2 = Some e -> (decodeMember fields st kv).2 = Some e.
Proof.
  intros He. unfold decodeMember.
  destruct (findField fields kv.1) as [f|]; [|done].
  destruct (store f (goType f) kv.2 st.1) as [t bad]. simpl. by rewrite He.
Qed.

Lemma foldl_decodeMember_keeps_error {T} (fields : list (fieldCodec T))
  (members : list (string * json)) st e :
  st.2 = Some e -> (foldl (decodeMember fields) st members).2 = Some e.
Proof.
  revert st. induction members as [|kv members IH]; intros st Hst; [done|].
  simpl. apply IH. by apply decodeMember_keeps_error.
Qed.

(** A member that addresses a field its value does not fit makes the
    decoding of the object end in an error. *)
Lemma decodeObject_mismatch {T} (fields : list (fieldCodec T))
  (key : string) (v : json) f (members : list (string * json)) (t : T) :
  (key, v) ∈ members ->
  findField fields key = Some f ->
  (forall t, is_Some (store f (goType f) v t).2) ->
  is_Some (decodeObject fields members t).2.
Proof.
  intros Hin Hf Hbad. unfold decodeObject.
  generalize (t, @None error). clear t.
  induction members as [|kv members IH]; intros st.
  - by apply elem_of_nil in Hin.
  - simpl. apply elem_of_cons in Hin as [<-|Hin]; [|by apply IH].
    assert (is_Some (decodeMember fields st (key, v)).2) as [e He].
    { unfold decodeMember. simpl. rewrite Hf.
      specialize (Hbad st.1).
      destruct (store f (goType f) v st.1) as [t bad].
      simpl in Hbad |- *. destruct st.2; [by eexists | done]. }
    exists e. by apply foldl_decodeMember_keeps_error.
Qed.

Lemma reshape_Id_elsewhere rt (check : gmap string json) :
  (forall odataId, check !! "@odata.id" = Some (JString odataId) ->
                   normalizesId odataId = false) ->
  MapCheck.reshape rt check !! "Id" = check !! "Id".
Proof.
  intros Hpath.
  destruct (check !! "@odata.id") as [[| | |odataId| |]|] eqn:Hid;
    try (unfold MapCheck.reshape; by rewrite Hid).
  rewrite (reshape_Id rt check odataId Hid).
  by rewrite (Hpath odataId eq_refl).
Qed.

(** *** The numbers of a decoded body *)

(** A whole number up to 2^53 in magnitude is a [float64]. *)
Lemma float64_exact (n : Z) :
  (- 2 ^ 53 ≤ n ≤ 2 ^ 53)%Z -> float64 n = Some n.
Proof.
  intros Hn. unfold float64. cbv zeta.
  destruct (Z.ltb_spec (Z.abs n) (2 ^ 53)) as [Hlt|Hge]; [done|].
  assert (n = 2 ^ 53 \/ n = - 2 ^ 53)%Z as [-> | ->] by lia; reflexivity.
Qed.

(** The map a body is decoded into binds a key to the last member of
    that name, as decoded, and binds only the names of members. *)
Lemma decoded_lookup (members : list (string * json))
  (m0 : gmap string json) k v :
  (k, v) ∈ members ->
  (forall w, (k, w) ∈ members -> w = v) ->
  foldl (fun m kv => <[kv.1 := asDecoded kv.2]> m) m0 members !! k
  = Some (asDecoded v).
Proof.
  induction members as [|[k' w] members IH] using rev_ind; intros Hin Huniq.
  - by apply elem_of_nil in Hin.
  - rewrite foldl_snoc. simpl.
    destruct (decide (k' = k)) as [->|Hne].
    + rewrite lookup_insert_eq. do 2 f_equal. apply Huniq.
      apply elem_of_app. right. by apply list_elem_of_singleton.
    + rewrite lookup_insert_ne by done. apply IH.
      * apply elem_of_app in Hin as [Hin|Hin]; [done|].
        apply list_elem_of_singleton in Hin. congruence.
      * intros w' Hw'. apply Huniq. apply elem_of_app. by left.
Qed.

Lemma decoded_keys (members : list (string * json)) k :
  k ∈ dom (foldl (fun (m : gmap string json) kv =>
                    <[kv.1 := asDecoded kv.2]> m) ∅ members) ->
  exists v, (k, v) ∈ members.
Proof.
  induction members as [|[k' w] members IH] using rev_ind.
  - simpl. rewrite dom_empty_L. intros Hk. by apply elem_of_empty in Hk.
  - rewrite foldl_snoc. simpl.
    rewrite dom_insert_L, elem_of_union, elem_of_singleton.
    intros [->|Hk].
    + exists w. apply elem_of_app. right. by apply list_elem_of_singleton.
    + destruct (IH Hk) as [v Hv]. exists v. apply elem_of_app. by left.
Qed.

Lemma forallb_elem_of {A} (f : A -> bool) (l : list A) x :
  forallb f l = true -> x ∈ l -> f x = true.
Proof.
  intros Hall Hx. rewrite forallb_forall in Hall.
  apply Hall. by apply list_elem_of_In.
Qed.

(** *** The struct of the second revision *)

(** The one field of [checkStruct] is addressed by every key that is [id]
    up to case. *)
Lemma findField_check (k : string) :
  findField StructCheck.checkFields k
  = if bool_decide (foldName k = "ID")
    then Some (mkCodec "id" "interface {}" StructCheck.storeInterface)
    else None.
Proof.
  unfold findField, StructCheck.checkFields. simpl.
  destruct (decide (k = "id")) as [->|Hne].
  - done.
  - rewrite (bool_decide_false ("id" = k)) by done. simpl.
    change (foldName "id") with "ID".
    destruct (decide (foldName k = "ID")) as [Hk|Hk].
    + rewrite (bool_decide_true _ Hk), (bool_decide_true ("ID" = _)); done.
    + rewrite (bool_decide_false _ Hk), (bool_decide_false ("ID" = _)); done.
Qed.

(** The values of the members named [id] up to case, in the order of the
    document. *)
Definition idMembers (members : list (string * json)) : list json :=
  (filter (fun kv => foldName kv.1 = "ID") members).*2.

Lemma idMembers_cons k w members :
  idMembers ((k, w) :: members)
  = if bool_decide (foldName k = "ID") then w :: idMembers members
    else idMembers members.
Proof.
  unfold idMembers. case_bool_decide.
  - by rewrite filter_cons_True.
  - by rewrite filter_cons_False.
Qed.

Lemma idMembers_last pre post k w :
  foldName k = "ID" ->
  Forall (fun kv => foldName kv.1 ≠ "ID") post ->
  idMembers (pre ++ (k, w) :: post) = (idMembers pre ++ [w])%list.
Proof.
  intros Hk Hpost. unfold idMembers.
  rewrite filter_app, filter_cons_True by done.
  rewrite fmap_app, fmap_cons. do 2 f_equal.
  induction Hpost as [|kv post Hkv _ IH]; [done|].
  by rewrite filter_cons_False.
Qed.

(** The struct ends with the value of the last member named [id] up to
    case, as decoded; a number beyond the range of [float64] in one of
    these members is the error of the decoding. *)
Lemma decodeCheck_fits members c0 :
  forallb jsonFits (idMembers members) = true ->
  foldl (decodeMember StructCheck.checkFields) (c0, None) members
  = (from_option (fun v => StructCheck.mkCheck (asDecoded v)) c0
                 (last (idMembers members)), None).
Proof.
  revert c0. induction members as [|[k w] members IH]; intros c0; [done|].
  rewrite idMembers_cons. simpl foldl. unfold decodeMember at 2. simpl.
  rewrite findField_check. case_bool_decide as Hk; simpl.
  - intros [Hw Hrest]%andb_true_iff.
    unfold StructCheck.storeInterface. rewrite Hw. simpl.
    rewrite IH by done. rewrite last_cons.
    by destruct (last (idMembers members)).
  - apply IH.
Qed.

Lemma decodeCheck_misfit members c0 :
  forallb jsonFits (idMembers members) = false ->
  (foldl (decodeMember StructCheck.checkFields) (c0, None) members).2
  = Some (UnmarshalTypeError "number" "float64").
Proof.
  revert c0. induction members as [|[k w] members IH]; intros c0; [done|].
  rewrite idMembers_cons. simpl foldl. unfold decodeMember at 2. simpl.
  rewrite findField_check. case_bool_decide as Hk; simpl.
  - unfold StructCheck.storeInterface.
    destruct (jsonFits w) eqn:Hw; simpl.
    + apply IH.
    + intros _. by apply foldl_decodeMember_keeps_error.
  - apply IH.
Qed.

Lemma unmarshalCheck_spec members :
  StructCheck.unmarshalCheck (Some (DocObject members))
  = if forallb jsonFits (idMembers members)
    then inl (from_option (fun v => StructCheck.mkCheck (asDecoded v))
                          (StructCheck.mkCheck JNull)
                          (last (idMembers members)))
    else inr (UnmarshalTypeError "number" "float64").
Proof.
  unfold StructCheck.unmarshalCheck, decodeObject.
  destruct (forallb jsonFits (idMembers members)) eqn:Hfits.
  - by rewrite decodeCheck_fits.
  - pose proof (decodeCheck_misfit members (StructCheck.mkCheck JNull) Hfits)
      as Herr.
    destruct (foldl _ _ members) as [check err]. simpl in Herr. by subst err.
Qed.

(** When every member named [id] up to case holds the same value, that
    value is the last. *)
Lemma last_unique {A} (l : list A) (v : A) :
  l ≠ [] -> (forall w, w ∈ l -> w = v) -> last l = Some v.
Proof.
  intros Hne Hall. destruct (last l) as [y|] eqn:Hlast.
  - f_equal. apply Hall. apply last_Some in Hlast as [l' ->].
    apply elem_of_app. right. by apply list_elem_of_singleton.
  - by apply last_None in Hlast.
Qed.

Lemma idMembers_elem members w :
  w ∈ idMembers members <->
  exists k, (k, w) ∈ members /\ foldName k = "ID".
Proof.
  unfold idMembers. rewrite list_elem_of_fmap. split.
  - intros ([k w'] & -> & Hin). apply list_elem_of_filter in Hin as [Hk Hin].
    by exists k.
  - intros (k & Hin & Hk). exists (k, w). split; [done|].
    by apply list_elem_of_filter.
Qed.

(** C5, as the code has it.  When the body carries the identifier, the
    only member named [Id] up to case, as the whole number [n], a [Get]
    that returns nil has stored as the identifier of the record the
    decimal string of the [float64] the decoder rounded [n] to, converted
    to [int]; for [n] up to 2^53 in magnitude that is the decimal string of
    [n] itself.  This holds in both revisions and whatever the path; a
    [Get] of such a body returns nil only in the first revision and when
    the body names a drive or a PCIe device of the first chassis, where the
    code converts: elsewhere the number reaches the string field of the
    record and [Get] returns the error of the decoding. *)
Theorem Get_normalizes_the_identifier
  (rt : MapRange) (c : Client.t) (uri : string) (resp : Response)
  (members : list (string * json)) (n : Z)
  (d : DataStorageLineOfService) (o : outcome DataStorageLineOfService) :
  Client.Get c uri = inl resp ->
  ReadAll (Body resp) = inl (Some (DocObject members)) ->
  ("Id", JNumber n) ∈ members ->
  (forall k v, (k, v) ∈ members -> foldName k = "ID" ->
               k = "Id" /\ v = JNumber n) ->
  MapCheck.Get rt c uri d = Done o \/ StructCheck.Get c uri d = Done o ->
  returned o = None ->
  exists x,
    float64 n = Some x /\
    ID (Entity' (after o)) = Itoa (int x) /\
    ((- 2 ^ 53 ≤ n ≤ 2 ^ 53)%Z -> ID (Entity' (after o)) = Itoa n).
Proof.
  intros Hget Hread Hmem Huniq Ho Hnil.
  assert (forall x, float64 n = Some x ->
                    ID (Entity' (after o)) = Itoa (int x) ->
                    exists x, float64 n = Some x /\
                      ID (Entity' (after o)) = Itoa (int x) /\
                      ((- 2 ^ 53 ≤ n ≤ 2 ^ 53)%Z ->
                       ID (Entity' (after o)) = Itoa n)) as Hend.
  { intros x Hx HID. exists x. split; [done|]. split; [done|].
    intros Hn. rewrite (float64_exact n Hn) in Hx. injection Hx as <-.
    rewrite HID, int_in_range; [done | lia]. }
  destruct Ho as [Ho|Ho].
  - destruct (MapCheck_Get_success rt c uri d o Ho Hnil)
      as (resp' & data & check' & t' & Hget' & Hread' & Hcheck' & Hdec & Ha & _).
    rewrite Hget in Hget'. injection Hget' as <-.
    rewrite Hread in Hread'. injection Hread' as <-.
    unfold unmarshalMap in Hcheck'.
    destruct (forallb _ members) eqn:Hfits; [|done].
    injection Hcheck' as <-.
    set (check := foldl (fun m kv => <[kv.1 := asDecoded kv.2]> m) ∅ members)
      in *.
    pose proof (forallb_elem_of _ _ _ Hfits Hmem) as Hn. simpl in Hn.
    apply bool_decide_eq_true in Hn as [x Hx].
    apply (Hend x Hx). rewrite Ha. simpl. rewrite tokenOf_ID.
    assert (check !! "Id" = Some (JNumber x)) as Hid.
    { unfold check. rewrite (decoded_lookup members ∅ "Id" (JNumber n)).
      - simpl. by rewrite Hx.
      - done.
      - intros w Hw. by destruct (Huniq "Id" w Hw eq_refl). }
    assert (forall k, k ∈ dom check -> foldName k = "ID" -> k = "Id")
      as Hkeys.
    { intros k Hk Hfold. apply decoded_keys in Hk as (v & Hv).
      by destruct (Huniq k v Hv Hfold). }
    destruct (Marshal_members (MapCheck.reshape rt check))
      as (ms & Hms & Hnodup & Hin).
    change (MapCheck.reshape rt <$> Some check)
      with (Some (MapCheck.reshape rt check)) in Hdec.
    rewrite Hms in Hdec.
    change (DataStorageLineOfService_UnmarshalJSON ms d = (t', None)) in Hdec.
    unfold DataStorageLineOfService_UnmarshalJSON in Hdec.
    destruct (decodeObject dataStorageLineOfServiceFields ms
                zeroDataStorageLineOfService) as [t err] eqn:Hobj.
    destruct err; [done|]. injection Hdec as <-.
    assert (MapCheck.reshape rt check !! "Id" = Some (JString (Itoa (int x)))
            \/ MapCheck.reshape rt check !! "Id" = Some (JNumber x))
      as [Hconv|Hkeep].
    { destruct (check !! "@odata.id") as [[| | |odataId| |]|] eqn:Hodata;
        try (right; rewrite reshape_Id_elsewhere; [done|];
             intros ? Hs; rewrite Hodata in Hs; discriminate Hs).
      destruct (normalizesId odataId) eqn:Hnorm.
      - left. rewrite (reshape_Id rt check odataId Hodata), Hnorm.
        by rewrite (numberToString_number _ _ _ Hid).
      - right. rewrite reshape_Id_elsewhere; [done|].
        intros ? Hs. rewrite Hodata in Hs. by injection Hs as <-. }
    + change t with ((t, @None error).1). rewrite <- Hobj.
      apply (decodeObject_assigned (fun d => ID (Entity' d))
               dataStorageLineOfServiceFields "Id"
               (JString (Itoa (int x))) (Itoa (int x))
               (mkCodec "Id" "string"
                  (storeString (fun s t =>
                     setEntity (setID s (Entity' t)) t)))).
      * done.
      * apply Hin. by rewrite Hconv.
      * done.
      * done.
      * intros k w g t0 Hk Hne Hg.
        apply (DataStorageLineOfService_ID_frame k); [|done].
        intros Hfold. apply Hne, Hkeys; [|done].
        rewrite <- (reshape_dom rt check). apply elem_of_dom.
        apply Hin in Hk. by destruct (MapCheck.reshape rt check !! k).
    + exfalso.
      assert (is_Some (decodeObject dataStorageLineOfServiceFields ms
                         zeroDataStorageLineOfService).2) as [e He].
      { apply (decodeObject_mismatch dataStorageLineOfServiceFields "Id"
                 (JNumber (shortest x))
                 (mkCodec "Id" "string"
                    (storeString (fun s t =>
                       setEntity (setID s (Entity' t)) t)))).
        - apply Hin. by rewrite Hkeep.
        - done.
        - intros t0. by eexists. }
      rewrite Hobj in He. discriminate He.
  - exfalso.
    destruct (StructCheck_Get_success c uri d o Ho Hnil)
      as (resp' & data & check & t' & Hget' & Hread' & Hcheck & Hdec & _ & _).
    rewrite Hget in Hget'. injection Hget' as <-.
    rewrite Hread in Hread'. injection Hread' as <-.
    rewrite unmarshalCheck_spec in Hcheck.
    destruct (forallb jsonFits (idMembers members)) eqn:Hfits; [|done].
    injection Hcheck as <-.
    rewrite (last_unique (idMembers members) (JNumber n)) in Hdec.
    + simpl in Hdec. unfold StructCheck.marshalCheck in Hdec. simpl in Hdec.
      revert Hdec.
      change (DataStorageLineOfService_UnmarshalJSON
                [("id", JNumber (shortest (default 0%Z (float64 n))))] d
              = (t', None) -> False).
      unfold DataStorageLineOfService_UnmarshalJSON, decodeObject.
      cbn [foldl]. unfold decodeMember.
      change (findField dataStorageLineOfServiceFields ("id", _).1)
        with (Some (mkCodec "Id" "string"
                      (storeString (fun s t =>
                         setEntity (setID s (Entity' t)) t)))).
      simpl. discriminate.
    + intros Hnil'.
      assert (JNumber n ∈ idMembers members) as Hin
        by (apply idMembers_elem; by exists "Id").
      rewrite Hnil' in Hin. by apply elem_of_nil in Hin.
    + intros w (k & Hw & Hk)%idMembers_elem.
      by destruct (Huniq k w Hw Hk).
Qed.

(** Two bodies carrying the identifier as the number 7, a drive of the
    first chassis and a computer system, and the body of a drive whose
    identifier is 2^53 + 1. *)
Definition driveBody : list (string * json) :=
  [ ("@odata.id", JString "/redfish/v1/Chassis/1/Drives/3");
    ("Id", JNumber 7);
    ("Name", JString "disk") ].

Definition systemBody : list (string * json) :=
  [ ("@odata.id", JString "/redfish/v1/Systems/1");
    ("Id", JNumber 7);
    ("Name", JString "node") ].

Definition largeDriveBody : list (string * json) :=
  [ ("@odata.id", JString "/redfish/v1/Chassis/1/Drives/3");
    ("Id", JNumber 9007199254740993);
    ("Name", JString "disk") ].

Lemma Get_normalizes_the_identifier_witness :
  exists o,
    MapCheck.Get rangeInOrder (stubClient ∅ driveBody)
                 "/redfish/v1/Chassis/1/Drives/3"
                 zeroDataStorageLineOfService = Done o /\
    returned o = None /\
    ID (Entity' (after o)) = "7".
Proof.
  eexists. split; [reflexivity|]. split; [reflexivity|].
  assert (("Id", JNumber 7) ∈ driveBody) as Hmem
    by (apply elem_of_cons; right; apply elem_of_cons; by left).
  assert (forall k v, (k, v) ∈ driveBody -> foldName k = "ID" ->
                      k = "Id" /\ v = JNumber 7) as Huniq.
  { intros k v Hkv Hfold. unfold driveBody in Hkv.
    rewrite !elem_of_cons, elem_of_nil in Hkv.
    destruct Hkv as [[= -> ->]|[[= -> ->]|[[= -> ->]|[]]]];
      first [done | discriminate Hfold]. }
  match goal with
  | |- ID (Entity' (after ?o)) = _ =>
      assert (MapCheck.Get rangeInOrder (stubClient ∅ driveBody)
                "/redfish/v1/Chassis/1/Drives/3"
                zeroDataStorageLineOfService = Done o) as Hrun
        by reflexivity;
      destruct (Get_normalizes_the_identifier rangeInOrder
                  (stubClient ∅ driveBody) "/redfish/v1/Chassis/1/Drives/3"
                  (stubResponse ∅ driveBody) driveBody 7
                  zeroDataStorageLineOfService o eq_refl eq_refl Hmem Huniq
                  (or_introl Hrun) eq_refl) as (x & _ & _ & Hsmall)
  end.
  apply Hsmall. lia.
Defined.

(** C5, as the claim states it, fails.  The decoder keeps a number as a
    [float64]: for the drive whose body carries the identifier 2^53 + 1,
    [Get] returns nil and the identifier of the record is the decimal
    string of 2^53. *)
Lemma Get_rounds_a_large_identifier :
  ~ (forall (rt : MapRange) (c : Client.t) (uri : string) (resp : Response)
            (members : list (string * json)) (n : Z)
            (d : DataStorageLineOfService)
            (o : outcome DataStorageLineOfService),
       Client.Get c uri = inl resp ->
       ReadAll (Body resp) = inl (Some (DocObject members)) ->
       ("Id", JNumber n) ∈ members ->
       MapCheck.Get rt c uri d = Done o \/ StructCheck.Get c uri d = Done o ->
       returned o = None ->
       ID (Entity' (after o)) = Itoa n).
Proof.
  intros Hclaim.
  assert (exists o,
            MapCheck.Get rangeInOrder (stubClient ∅ largeDriveBody)
              "/redfish/v1/Chassis/1/Drives/3" zeroDataStorageLineOfService
            = Done o /\
            returned o = None /\
            ID (Entity' (after o)) = "9007199254740992")
    as (o & Hrun & Hnil & HID)
    by (eexists; split; [reflexivity|]; split; reflexivity).
  assert (("Id", JNumber 9007199254740993) ∈ largeDriveBody) as Hmem
    by (apply elem_of_cons; right; apply elem_of_cons; by left).
  specialize (Hclaim rangeInOrder (stubClient ∅ largeDriveBody)
                "/redfish/v1/Chassis/1/Drives/3"
                (stubResponse ∅ largeDriveBody) largeDriveBody
                9007199254740993%Z zeroDataStorageLineOfService o
                eq_refl eq_refl Hmem (or_introl Hrun) Hnil).
  rewrite HID in Hclaim. vm_compute in Hclaim. discriminate Hclaim.
Qed.

(** A body with more than an identifier, and the headers of a response
    that carries a token. *)
Definition serviceBody : list (string * json) :=
  [ ("@odata.id", JString "/redfish/v1/StorageServices/1/Lines/2");
    ("Id", JString "2");
    ("Name", JString "gold");
    ("Description", JString "mirrored");
    ("IsSpaceEfficient", JBool true) ].

Definition taggedHeader : gmap string (list string) :=
  <["Etag" := [quoted "abc123"]]> ∅.

(** C6 on the second revision of [Get]: the body is decoded into a struct
    holding the identifier alone, so of the five members of [serviceBody]
    that the record has a field for, four are dropped.  The token and the
    client are stored. *)
Theorem StructCheck_Get_drops_the_body :
  exists o,
    StructCheck.Get (stubClient taggedHeader serviceBody)
                    "/redfish/v1/StorageServices/1/Lines/2"
                    zeroDataStorageLineOfService = Done o /\
    returned o = None /\
    ID (Entity' (after o)) = "2" /\
    ODataID (Entity' (after o)) = "" /\
    Name_ (Entity' (after o)) = "" /\
    Description (after o) = "" /\
    IsSpaceEfficient (after o) = false /\
    etag (Entity' (after o)) = quoted "abc123" /\
    client (Entity' (after o)) = Some (stubClient taggedHeader serviceBody).
Proof.
  eexists. split; [reflexivity|]. repeat split.
Qed.

(** The first revision, on the same response, fills every one of them. *)
Lemma MapCheck_Get_decodes_the_body :
  exists o,
    MapCheck.Get rangeInOrder (stubClient taggedHeader serviceBody)
                 "/redfish/v1/StorageServices/1/Lines/2"
                 zeroDataStorageLineOfService = Done o /\
    returned o = None /\
    ID (Entity' (after o)) = "2" /\
    ODataID (Entity' (after o)) = "/redfish/v1/StorageServices/1/Lines/2" /\
    Name_ (Entity' (after o)) = "gold" /\
    Description (after o) = "mirrored" /\
    IsSpaceEfficient (after o) = true /\
    etag (Entity' (after o)) = quoted "abc123" /\
    client (Entity' (after o)) = Some (stubClient taggedHeader serviceBody).
Proof.
  eexists. split; [reflexivity|]. repeat split.
Qed.

(** ** The collection retriever *)

Definition failuresOf (err : option CollectionError) : gmap string error :=
  match err with
  | Some ce => Failures ce
  | None => ∅
  end.

Lemma mapM_Done {A B} (f : A -> exec B) (l : list A) (k : list B) :
  mapM f l = Done k -> Forall2 (fun x y => f x = Done y) l k.
Proof.
  revert k. induction l as [|x l IH]; intros k; simpl.
  - intros [= <-]. constructor.
  - destruct (f x) as [y|] eqn:Hy; simpl; [|done].
    destruct (mapM f l) as [k'|]; simpl; [|done].
    intros [= <-]. constructor; auto.
Qed.

(** Every report carries the link it was dispatched for. *)
Lemma reports_links entityGet c (ms : list string) (reports : list GetResult) :
  mapM (getReport entityGet c) ms = Done reports ->
  Link <$> reports = ms.
Proof.
  intros H%mapM_Done. induction H as [|m r ms reports Hr _ IH]; [done|].
  simpl. f_equal; [|done].
  unfold getReport in Hr.
  destruct (GetDataStorageLineOfService entityGet c m); simpl in Hr; [|done].
  by injection Hr as <-.
Qed.

Lemma foldl_aggregate (rs : list GetResult) st :
  (foldl aggregate st rs).1
    = (st.1 ++ (Item <$> filter (fun r => Error r = None) rs))%list /\
  dom (Failures (foldl aggregate st rs).2)
    = dom (Failures st.2)
      ∪ list_to_set (Link <$> filter (fun r => is_Some (Error r)) rs).
Proof.
  revert st. induction rs as [|r rs IH]; intros st; simpl.
  - split; [by rewrite app_nil_r | by rewrite (right_id_L ∅ (∪))].
  - destruct (IH (aggregate st r)) as [-> ->].
    unfold aggregate. destruct (Error r) as [err|] eqn:Herr; simpl.
    + rewrite filter_cons_False by (by rewrite Herr).
      rewrite filter_cons_True by (by rewrite Herr).
      split; [done|]. simpl. rewrite dom_insert_L.
      by rewrite (assoc_L (∪)), (comm_L (∪) {[Link r]}).
    + rewrite filter_cons_True by done.
      rewrite filter_cons_False by (rewrite Herr; by intros []).
      split; [|done]. simpl. by rewrite <- app_assoc.
Qed.

(** The key the walker writes: the collection link, if the walk failed. *)
Definition walkKey (link : string) (err : option error) : gset string :=
  match err with
  | Some _ => {[link]}
  | None => ∅
  end.

Lemma walkerWrite_spec link err st :
  (walkerWrite link err st).1 = st.1 /\
  dom (Failures (walkerWrite link err st).2)
    = dom (Failures st.2) ∪ walkKey link err.
Proof.
  destruct err as [e|]; simpl.
  - split; [done|]. rewrite dom_insert_L. by rewrite (comm_L (∪)).
  - by rewrite (right_id_L ∅ (∪)).
Qed.

(** What the aggregation comes to, wherever the write of the walker
    lands: the items of the reports without error, in the order of their
    arrival, and a mapping whose keys are the links of the reports with an
    error, and the collection link if the walk failed. *)
Lemma aggregation (front back : list GetResult) link err (first : bool) :
  let st := foldl aggregate ([], NewCollectionError) front in
  let st' :=
    if first
    then foldl aggregate (walkerWrite link err st) back
    else walkerWrite link err (foldl aggregate st back) in
  st'.1 = Item <$> filter (fun r => Error r = None) (front ++ back)%list /\
  dom (Failures st'.2)
    = list_to_set
        (Link <$> filter (fun r => is_Some (Error r)) (front ++ back)%list)
      ∪ walkKey link err.
Proof.
  intros st st'.
  rewrite !filter_app, !fmap_app, list_to_set_app_L.
  destruct (foldl_aggregate front ([], NewCollectionError)) as [Hi Hd].
  fold st in Hi, Hd. simpl in Hi, Hd.
  rewrite dom_empty_L, (left_id_L ∅ (∪)) in Hd.
  unfold st'. destruct first.
  - destruct (foldl_aggregate back (walkerWrite link err st)) as [-> ->].
    destruct (walkerWrite_spec link err st) as [-> ->].
    rewrite Hi, Hd. split; [done|].
    rewrite <- !(assoc_L (∪)). f_equal. apply (comm_L (∪)).
  - destruct (walkerWrite_spec link err (foldl aggregate st back)) as [-> ->].
    destruct (foldl_aggregate back st) as [-> ->].
    by rewrite Hi, Hd.
Qed.

Lemma foldl_aggregate_lookup (rs : list GetResult) st (l : string) :
  l ∉ Link <$> filter (fun r => is_Some (Error r)) rs ->
  Failures (foldl aggregate st rs).2 !! l = Failures st.2 !! l.
Proof.
  revert st. induction rs as [|r rs IH]; intros st Hl; simpl; [done|].
  unfold aggregate at 2. destruct (Error r) as [err|] eqn:Herr.
  - rewrite filter_cons_True in Hl by (by rewrite Herr).
    rewrite fmap_cons in Hl. apply not_elem_of_cons in Hl as [Hne Hl].
    rewrite IH by done. simpl. by rewrite lookup_insert_ne.
  - rewrite filter_cons_False in Hl by (rewrite Herr; by intros []).
    by rewrite IH.
Qed.


Lemma Empty_spec ce : Empty ce = true <-> Failures ce = ∅.
Proof.
  unfold Empty. rewrite bool_decide_eq_true. apply map_size_empty_iff.
Qed.

(** The write of the walker overlaps no other when the walk succeeded. *)
Lemma overlappingWrites_None sch received :
  overlappingWrites sch None received = false.
Proof. unfold overlappingWrites. by destruct (walkerTiming sch). Qed.

(** The retriever on a collection link that is not empty, once every
    fetch has reported: it stops when the two writes overlap, and
    otherwise returns the items of the fetches that succeeded, in the order
    of their arrival, and a mapping keyed by the links of those that
    failed and, if the walk failed, by the collection link. *)
Lemma ListReferenced_spec sch enumerate entityGet c link reports :
  link ≠ "" ->
  mapM (getReport entityGet c) (members (enumerate c link)) = Done reports ->
  if overlappingWrites sch (walkError (enumerate c link)) (arrival sch reports)
  then ListReferencedDataStorageLineOfServices sch enumerate entityGet c link
       = Panics
  else
    exists items err,
      ListReferencedDataStorageLineOfServices sch enumerate entityGet c link
        = Done (items, err) /\
      items = Item <$> filter (fun r => Error r = None) (arrival sch reports) /\
      dom (failuresOf err)
        = list_to_set (Link <$> filter (fun r => is_Some (Error r)) reports)
          ∪ walkKey link (walkError (enumerate c link)) /\
      (err = None <-> failuresOf err = ∅).
Proof.
  intros Hlink Hreports.
  unfold ListReferencedDataStorageLineOfServices, CollectList.
  rewrite (bool_decide_false _ Hlink), Hreports. simpl.
  destruct (overlappingWrites _ _ _); [done|].
  assert (list_to_set (C := gset string)
            (Link <$> filter (fun r => is_Some (Error r))
                             (arrival sch reports))
          = list_to_set
              (Link <$> filter (fun r => is_Some (Error r)) reports))
    as Hset.
  { apply set_eq. intros l. rewrite !elem_of_list_to_set.
    by rewrite (arrival_perm sch _ reports). }
  destruct (walkerTiming sch);
    [ pose proof (aggregation
                    (take (length (arrival sch reports) - 1)
                          (arrival sch reports))
                    (drop (length (arrival sch reports) - 1)
                          (arrival sch reports))
                    link (walkError (enumerate c link)) true)
        as [Hitems Hdom]
    | pose proof (aggregation
                    (take (length (arrival sch reports) - 1)
                          (arrival sch reports))
                    (drop (length (arrival sch reports) - 1)
                          (arrival sch reports))
                    link (walkError (enumerate c link)) false)
        as [Hitems Hdom] .. ];
    rewrite take_drop in Hitems, Hdom; simpl in Hitems, Hdom;
    rewrite Hset in Hdom;
    match goal with
    | |- context [Empty ?x.2] => set (st := x) in *
    end;
    (destruct (Empty st.2) eqn:Hempty;
     [ apply Empty_spec in Hempty;
       exists st.1, None; split; [done|]; split; [done|];
       split; [|done]; simpl; by rewrite <- Hdom, Hempty, dom_empty_L
     | exists st.1, (Some st.2); split; [done|]; split; [done|];
       split; [done|]; simpl; split; [done|];
       intros Hnone; apply Empty_spec in Hnone; congruence ]).
Qed.

Lemma reports_partition (reports : list GetResult) :
  (length (filter (fun r => Error r = None) reports)
   = length reports - length (filter (fun r => is_Some (Error r)) reports))%nat.
Proof.
  pose proof (filter_app_complement (fun r => Error r = None) reports) as Hp.
  apply Permutation_length in Hp. rewrite length_app in Hp.
  rewrite (list_filter_iff (fun r => is_Some (Error r))
             (fun r => ¬ Error r = None)).
  - lia.
  - intros r. destruct (Error r); split; done.
Qed.

Lemma NoDup_fmap_filter {A B} (f : A -> B) (P : A -> Prop)
  `{forall x, Decision (P x)} (l : list A) :
  NoDup (f <$> l) -> NoDup (f <$> filter P l).
Proof.
  intros Hnd. eapply sublist_NoDup; [exact Hnd|].
  apply fmap_sublist, sublist_filter.
Qed.

Lemma NoDup_fmap_eq {A B} (f : A -> B) (l : list A) x y :
  NoDup (f <$> l) -> x ∈ l -> y ∈ l -> f x = f y -> x = y.
Proof.
  induction l as [|a l IH]; simpl; intros Hnd Hx Hy Hf.
  - by apply elem_of_nil in Hx.
  - apply NoDup_cons in Hnd as [Hnotin Hnd].
    apply elem_of_cons in Hx as [->|Hx]; apply elem_of_cons in Hy as [->|Hy].
    + done.
    + exfalso. apply Hnotin. rewrite Hf. by apply list_elem_of_fmap_2.
    + exfalso. apply Hnotin. rewrite <- Hf. by apply list_elem_of_fmap_2.
    + by apply IH.
Qed.

(** C2, as the code has it.  When the walk of the collection succeeds and
    yields N pairwise distinct member links of which K fail: the retriever
    returns N - K items, those of the fetches that succeeded, in the order
    in which their reports arrived; the failure mapping has K entries;
    every member link is a key of the failure mapping or the link of a
    returned item, and not both; and when none fails the error returned is
    nil. *)
Theorem collection_fetch_partitions_the_links
  (sch : Scheduler) (enumerate : Client.t -> string -> Walk)
  (entityGet : EntityGet) (c : Client.t) (link : string)
  (reports : list GetResult) :
  link ≠ "" ->
  walkError (enumerate c link) = None ->
  NoDup (members (enumerate c link)) ->
  mapM (getReport entityGet c) (members (enumerate c link)) = Done reports ->
  let N := length (members (enumerate c link)) in
  let succeeded := filter (fun r => Error r = None) reports in
  let K := length (filter (fun r => is_Some (Error r)) reports) in
  exists items err,
    ListReferencedDataStorageLineOfServices sch enumerate entityGet c link
      = Done (items, err) /\
    items = Item <$> filter (fun r => Error r = None) (arrival sch reports) /\
    length items = (N - K)%nat /\
    size (failuresOf err) = K /\
    (forall l, l ∈ members (enumerate c link) ->
       (l ∈ dom (failuresOf err) /\ (l ∉ Link <$> succeeded)) \/
       ((l ∉ dom (failuresOf err)) /\ l ∈ Link <$> succeeded)) /\
    (K = 0%nat -> err = None).
Proof.
  intros Hlink Hwalk Hnodup Hreports N succeeded K.
  pose proof (ListReferenced_spec sch enumerate entityGet c link reports
                Hlink Hreports) as Hspec.
  rewrite Hwalk, overlappingWrites_None in Hspec.
  destruct Hspec as (items & err & Hrun & Hitems & Hdom & Hnil).
  simpl in Hdom. rewrite (right_id_L ∅ (∪)) in Hdom.
  pose proof (reports_links _ _ _ _ Hreports) as Hlinks.
  assert (NoDup (Link <$> reports)) as Hnd by (by rewrite Hlinks).
  exists items, err. split; [done|]. split; [done|].
  assert (size (failuresOf err) = K) as Hsize.
  { rewrite <- size_dom, Hdom.
    rewrite size_list_to_set by (by apply NoDup_fmap_filter).
    by rewrite length_fmap. }
  split; [|split; [done|split]].
  - rewrite Hitems, length_fmap, (arrival_perm sch _ reports).
    unfold N, K. rewrite reports_partition. f_equal.
    by rewrite <- Hlinks, length_fmap.
  - intros l Hl. rewrite <- Hlinks in Hl.
    apply list_elem_of_fmap in Hl as (r & -> & Hr).
    rewrite Hdom, elem_of_list_to_set.
    destruct (Error r) as [e|] eqn:He.
    + left. split.
      * apply list_elem_of_fmap_2, list_elem_of_filter.
        split; [by rewrite He | done].
      * intros (r' & Heq & Hr')%list_elem_of_fmap.
        apply list_elem_of_filter in Hr' as [Hok Hr'].
        assert (r = r') as <- by (by eapply (NoDup_fmap_eq Link)).
        congruence.
    + right. split.
      * intros (r' & Heq & Hr')%list_elem_of_fmap.
        apply list_elem_of_filter in Hr' as [[e He'] Hr'].
        assert (r = r') as <- by (by eapply (NoDup_fmap_eq Link)).
        congruence.
      * apply list_elem_of_fmap_2, list_elem_of_filter. done.
  - intros HK. apply Hnil. apply map_size_empty_iff. lia.
Qed.


(** A service with two lines of service, the second of which cannot be
    fetched, and a walk that may fail after it has yielded its links. *)
Definition linesClient : Client.t :=
  {| Client.Get := fun uri =>
       if bool_decide (uri = "/redfish/v1/Lines/2")
       then inr (Errorf "connection reset")
       else inl (stubResponse taggedHeader serviceBody);
     Client.PatchWithHeaders := fun _ _ _ => inl (stubResponse ∅ []);
     Client.PostWithHeaders := fun _ _ _ => inl (stubResponse ∅ []) |}.

Definition linesWalk (links : list string) (err : option error)
  : Client.t -> string -> Walk :=
  fun _ _ => {| members := links; walkError := err |}.

Lemma collection_fetch_partitions_the_links_witness :
  exists items err,
    ListReferencedDataStorageLineOfServices inDispatchOrder
      (linesWalk ["/redfish/v1/Lines/1"; "/redfish/v1/Lines/2"] None)
      (MapCheck.Get rangeInOrder) linesClient "/redfish/v1/Lines"
      = Done (items, err) /\
    length items = 1%nat /\
    size (failuresOf err) = 1%nat.
Proof.
  edestruct (collection_fetch_partitions_the_links inDispatchOrder
               (linesWalk ["/redfish/v1/Lines/1"; "/redfish/v1/Lines/2"] None)
               (MapCheck.Get rangeInOrder) linesClient "/redfish/v1/Lines")
    as (items & err & Hrun & _ & Hlen & Hsize & _).
  - discriminate.
  - reflexivity.
  - apply NoDup_cons. split; [|apply NoDup_singleton].
    rewrite list_elem_of_singleton. discriminate.
  - reflexivity.
  - exists items, err. split; [exact Hrun|]. split; [exact Hlen | exact Hsize].
Defined.


(** C2, as the claim states it, fails.  When the walk fails before it has
    yielded a link, N and K are 0 and the failure mapping has one entry,
    the collection link; and when the collection lists the same link twice
    and its fetch fails, K is 2 and the failure mapping has one entry. *)
Lemma failure_mapping_is_not_the_failed_members :
  ~ (forall (sch : Scheduler) (enumerate : Client.t -> string -> Walk)
            (entityGet : EntityGet) (c : Client.t) (link : string)
            (reports : list GetResult),
       link ≠ "" ->
       mapM (getReport entityGet c) (members (enumerate c link))
         = Done reports ->
       exists items err,
         ListReferencedDataStorageLineOfServices sch enumerate entityGet c link
           = Done (items, err) /\
         length items
           = (length (members (enumerate c link))
              - length (filter (fun r => is_Some (Error r)) reports))%nat /\
         size (failuresOf err)
           = length (filter (fun r => is_Some (Error r)) reports)) /\
  ~ (forall (sch : Scheduler) (enumerate : Client.t -> string -> Walk)
            (entityGet : EntityGet) (c : Client.t) (link : string)
            (reports : list GetResult),
       link ≠ "" ->
       walkError (enumerate c link) = None ->
       mapM (getReport entityGet c) (members (enumerate c link))
         = Done reports ->
       exists items err,
         ListReferencedDataStorageLineOfServices sch enumerate entityGet c link
           = Done (items, err) /\
         size (failuresOf err)
           = length (filter (fun r => is_Some (Error r)) reports)).
Proof.
  pose (sizeOf := fun x : exec (list DataStorageLineOfService
                                 * option CollectionError) =>
                    match x with
                    | Done (_, err) => size (failuresOf err)
                    | Panics => 0%nat
                    end).
  split; intros Hclaim.
  - destruct (Hclaim inDispatchOrder
                (linesWalk [] (Some (Errorf "page 1: timeout")))
                (MapCheck.Get rangeInOrder) linesClient "/redfish/v1/Lines"
                [] ltac:(discriminate) eq_refl)
      as (items & err & Hrun & _ & Hsize).
    apply (f_equal sizeOf) in Hrun. simpl in Hrun, Hsize.
    rewrite <- Hrun in Hsize. vm_compute in Hsize. discriminate.
  - edestruct (Hclaim inDispatchOrder
                (linesWalk ["/redfish/v1/Lines/2"; "/redfish/v1/Lines/2"] None)
                (MapCheck.Get rangeInOrder) linesClient "/redfish/v1/Lines"
                _ ltac:(discriminate) eq_refl eq_refl)
      as (items & err & Hrun & Hsize).
    apply (f_equal sizeOf) in Hrun. simpl in Hrun, Hsize.
    rewrite <- Hrun in Hsize. vm_compute in Hsize. discriminate.
Qed.

(** * Further properties *)

(** ** The query filter *)

Lemma append_assoc (a b c : string) : (a ++ b) ++ c = a ++ (b ++ c).
Proof.
  induction a as [|x a IH]; [done|].
  change (String x ((a ++ b) ++ c) = String x (a ++ b ++ c)). by f_equal.
Qed.

Lemma append_nil_r (a : string) : a ++ "" = a.
Proof.
  induction a as [|x a IH]; [done|].
  change (String x (a ++ "") = String x a). by f_equal.
Qed.

Lemma applyOptions_fragments (opts : list FilterOption) (frags : list string)
  (lastIdx idx : Z) (e : Filter) :
  Forall2 (fun opt frag => forall x, opt x = x ++ frag) opts frags ->
  (idx + Z.of_nat (length opts) = lastIdx + 1)%Z ->
  applyOptions lastIdx opts idx e = e ++ String.concat "&" frags.
Proof.
  intros Hopts. revert idx e.
  induction Hopts as [|opt frag opts frags Hopt Hrest IH]; intros idx e Hlen.
  - simpl. by rewrite append_nil_r.
  - cbn [applyOptions]. rewrite Hopt.
    rewrite length_cons, Nat2Z.inj_succ in Hlen.
    destruct Hrest as [|opt' frag' opts frags Hopt' Hrest].
    + change (length []) with 0%nat in Hlen.
      rewrite bool_decide_false by lia. done.
    + cbn [length] in Hlen.
      rewrite bool_decide_true by lia.
      rewrite IH by (cbn [length]; lia).
      change (String.concat "&" (frag :: frag' :: frags))
        with (frag ++ "&" ++ String.concat "&" (frag' :: frags)).
      by rewrite !append_assoc.
Qed.

(** X1.  [SetFilter] forgets the filter it is given and builds a new one: a
    question mark followed by what the options append, in order, with an
    ampersand between two of them and none at the end.  With no option the
    filter is the question mark alone. *)
Theorem SetFilter_joins_the_fragments (e : Filter)
  (opts : list FilterOption) (frags : list string) :
  Forall2 (fun opt frag => forall x, opt x = x ++ frag) opts frags ->
  SetFilter e opts = "?" ++ String.concat "&" frags.
Proof.
  intros Hopts. unfold SetFilter.
  apply applyOptions_fragments; [done | lia].
Qed.

Lemma SetFilter_joins_the_fragments_witness :
  SetFilter "?$top=1" [WithSkip 10; WithTop 5] = "?$skip=10&$top=5".
Proof.
  apply (SetFilter_joins_the_fragments "?$top=1" [WithSkip 10; WithTop 5]
           ["$skip=10"; "$top=5"]).
  repeat constructor.
Defined.

(** ** The structural diff, further *)

(** X2.  A scalar field (a boolean, an integer, a string, or an interface
    holding one of these) enters the payload, with its new value, exactly
    when the two values differ; the other fields already visited keep
    their entries. *)
Theorem diff_scalar_field
  (pre : list (StructField * value)) (field : StructField)
  (originalField currentField updatedEntity : value)
  (payload : gmap string value) :
  Exported field = true ->
  Tag field ≠ "-" ->
  scalar originalField = true ->
  Field updatedEntity (length pre) = Done currentField ->
  getPatchPayloadFromUpdate (VStruct pre) updatedEntity = Done payload ->
  let whole := VStruct (pre ++ [(field, originalField)]) in
  (originalField ≠ currentField ->
   getPatchPayloadFromUpdate whole updatedEntity
   = Done (<[fieldNameOf field := currentField]> payload)) /\
  (originalField = currentField ->
   getPatchPayloadFromUpdate whole updatedEntity = Done payload).
Proof.
  intros Hexp Htag Hsc Hcur Hpre whole. unfold whole.
  rewrite (diff_last_field _ _ _ _ _ Hpre).
  unfold visitField. rewrite Hexp. simpl.
  rewrite (bool_decide_false _ Htag), Hcur. simpl.
  assert (TypeKind originalField ≠ reflect.Ptr) as Hptr
    by (by destruct originalField).
  rewrite (bool_decide_false _ Hptr).
  assert (isNil originalField = false) as ->
    by (by destruct originalField as [| | | | | | | | [[]|]]).
  simpl.
  pose proof (ifaceEqual_spec originalField currentField Hsc) as Heq.
  split.
  - intros Hne.
    assert (ifaceEqual originalField currentField = false) as ->.
    { apply not_true_is_false. by rewrite Heq. }
    by destruct originalField as [| | | | | | | | [[? []]|]].
  - intros Hsame. rewrite (proj2 Heq Hsame).
    by destruct originalField as [| | | | | | | | [[? []]|]].
Qed.

Lemma diff_scalar_field_witness :
  getPatchPayloadFromUpdate
    (VStruct [(mkField "Name" "Name" true false, VString "a");
              (mkField "Count" "" true false, VInt 1)])
    (VStruct [(mkField "Name" "Name" true false, VString "a");
              (mkField "Count" "" true false, VInt 2)])
  = Done (<["Count" := VInt 2]> ∅).
Proof.
  assert (getPatchPayloadFromUpdate
            (VStruct [(mkField "Name" "Name" true false, VString "a")])
            (VStruct [(mkField "Name" "Name" true false, VString "a");
                      (mkField "Count" "" true false, VInt 2)])
          = Done ∅) as Hpre by reflexivity.
  assert (Tag (mkField "Count" "" true false) ≠ "-") as Htag by discriminate.
  destruct (diff_scalar_field
              [(mkField "Name" "Name" true false, VString "a")]
              (mkField "Count" "" true false) (VInt 1) (VInt 2)
              (VStruct [(mkField "Name" "Name" true false, VString "a");
                        (mkField "Count" "" true false, VInt 2)]) ∅
              eq_refl Htag eq_refl eq_refl Hpre) as [Hchanged _].
  apply Hchanged. discriminate.
Defined.

(** X3.  A field of interface type that held nothing: it is skipped when it
    still holds nothing, and enters the payload with its new value
    otherwise. *)
Theorem diff_nil_interface_field
  (pre : list (StructField * value)) (field : StructField)
  (currentField updatedEntity : value) (payload : gmap string value) :
  Exported field = true ->
  Tag field ≠ "-" ->
  Field updatedEntity (length pre) = Done currentField ->
  getPatchPayloadFromUpdate (VStruct pre) updatedEntity = Done payload ->
  getPatchPayloadFromUpdate (VStruct (pre ++ [(field, VIface None)]))
                            updatedEntity
  = Done (if isNil currentField then payload
          else <[fieldNameOf field := currentField]> payload).
Proof.
  intros Hexp Htag Hcur Hpre.
  rewrite (diff_last_field _ _ _ _ _ Hpre).
  unfold visitField. rewrite Hexp. simpl.
  rewrite (bool_decide_false _ Htag), Hcur. simpl.
  by destruct (isNil currentField).
Qed.

Lemma diff_nil_interface_field_witness :
  getPatchPayloadFromUpdate
    (VStruct [(mkField "Oem" "Oem" true false, VIface None)])
    (VStruct [(mkField "Oem" "Oem" true false,
               VIface (Some ("string", VString "x")))])
  = Done (<["Oem" := VIface (Some ("string", VString "x"))]> ∅).
Proof.
  assert (Tag (mkField "Oem" "Oem" true false) ≠ "-") as Htag by discriminate.
  exact (diff_nil_interface_field [] (mkField "Oem" "Oem" true false)
           (VIface (Some ("string", VString "x")))
           (VStruct [(mkField "Oem" "Oem" true false,
                      VIface (Some ("string", VString "x")))])
           ∅ eq_refl Htag eq_refl eq_refl).
Defined.







Lemma diff_names (a updatedEntity : value) (payload : gmap string value) :
  getPatchPayloadFromUpdate a updatedEntity = Done payload ->
  forall k, k ∈ dom payload -> k ∈ payloadNames a.
Proof.
  revert updatedEntity payload.
  induction a as [v Hv | fs IH] using struct_ind;
    [by destruct v|].
  intros updatedEntity payload. simpl.
  apply (forFields_invariant
           (fun p => forall k, k ∈ dom p ->
              k ∈ payloadNames (VStruct fs))).
  - intros i p f v p' Hin Hp Hvisit k Hk.
    rewrite Forall_forall in IH. specialize (IH _ Hin). simpl in IH.
    assert (forall name, k ∈ dom (<[name := v]> p) -> name = fieldNameOf f ->
              Exported f = true -> TypeKind v ≠ reflect.Ptr -> Tag f ≠ "-" ->
              (Anonymous f && bool_decide (TypeKind v = reflect.Struct) = false) ->
              k ∈ payloadNames (VStruct fs)) as Hins.
    { intros name Hk' -> Hexp Hptr Htag Hanon.
      rewrite dom_insert_L in Hk'. apply elem_of_union in Hk' as [Hk'|Hk'];
        [|by apply Hp].
      apply elem_of_singleton in Hk' as ->.
      simpl. apply elem_of_flat_map. exists (f, v). split; [done|]. simpl.
      rewrite Hexp, (bool_decide_false _ Hptr), (bool_decide_false _ Htag),
        Hanon. simpl. by left. }
    assert (forall name w, k ∈ dom (<[name := w]> p) ->
              k ∈ dom (<[name := v]> p)) as Hdom
      by (intros name w; by rewrite !dom_insert_L).
    revert Hvisit. unfold visitField.
    destruct (Exported f) eqn:Hexp; simpl; [|intros [= <-]; by apply Hp].
    destruct (decide (TypeKind v = reflect.Ptr)) as [Hptr|Hptr];
      [rewrite bool_decide_true by done; intros [= <-]; by apply Hp|].
    rewrite bool_decide_false by done.
    destruct (decide (Tag f = "-")) as [Htag|Htag];
      [rewrite bool_decide_true by done; intros [= <-]; by apply Hp|].
    rewrite bool_decide_false by done.
    destruct (Field updatedEntity i) as [cur|]; simpl; [|done].
    destruct (isNil v) eqn:Hnil; simpl.
    + destruct (isNil cur); simpl; intros [= <-]; [by apply Hp|].
      eapply Hins; eauto.
      destruct v as [| | | | | | | | [[]|]]; try done.
      by rewrite andb_false_r.
    + destruct (decide (TypeKind v = reflect.Struct)) as [Hst|Hst].
      * destruct v as [| | | | | | | fields |]; try done. simpl.
        change (forFields (visitField getPatchPayloadFromUpdate cur) fields 0 ∅)
          with (getPatchPayloadFromUpdate (VStruct fields) cur).
        destruct (getPatchPayloadFromUpdate (VStruct fields) cur)
          as [sp|] eqn:Hsp; simpl; [|done].
        destruct (Anonymous f) eqn:Hanon.
        -- intros [= <-]. rewrite splice_union in Hk.
           rewrite dom_union_L in Hk. apply elem_of_union in Hk as [Hk|Hk];
             [|by apply Hp].
           simpl. apply elem_of_flat_map. exists (f, VStruct fields).
           split; [done|]. simpl.
           rewrite Hexp, (bool_decide_false _ Htag), Hanon. simpl.
           by eapply IH.
        -- destruct (negb _); intros [= <-]; [|by apply Hp].
           eapply (Hins (fieldNameOf f)); eauto.
      * assert (Anonymous f && bool_decide (TypeKind v = reflect.Struct) = false)
          as Hanon by (rewrite (bool_decide_false _ Hst); apply andb_false_r).
        destruct (dynKind v) eqn:Hk';
          try (destruct (negb _); intros [= <-];
               [eapply Hins; eauto | by apply Hp]).
        destruct v as [| | | | | | | | [[t []]|]]; try done.
  - intros k Hk. by rewrite dom_empty_L in Hk.
Qed.

(** X5.  The diff reports changes only under the names of fields it can see:
    every key of the payload is the name of an exported field that is no
    pointer and is not tagged [-], of the record or of a record embedded in
    it.  Unexported fields, ignored fields and pointers are never in the
    payload. *)
Theorem diff_reports_only_visible_fields (originalEntity updatedEntity : value)
  (payload : gmap string value) (k : string) :
  getPatchPayloadFromUpdate originalEntity updatedEntity = Done payload ->
  k ∈ dom payload ->
  k ∈ payloadNames originalEntity.
Proof. intros Hdiff. by apply (diff_names _ _ _ Hdiff). Qed.

Lemma diff_reports_only_visible_fields_witness :
  "Members" ∈ payloadNames (listRecord "a" 1%N [VInt 1]).
Proof.
  assert (getPatchPayloadFromUpdate (listRecord "a" 1%N [VInt 1])
                                    (listRecord "b" 2%N [VInt 2])
          = Done (<["Members" := VSlice (Some (2%N, [VInt 2]))]>
                    (<["Name" := VString "b"]> ∅))) as Hdiff by reflexivity.
  apply (diff_reports_only_visible_fields _ _ _ "Members" Hdiff).
  apply elem_of_dom. eexists. apply lookup_insert_eq.
Defined.

(** ** Update, further *)



Lemma Update_allowed (rt : MapRange) (e : Entity)
  (originalEntity updatedEntity : value) (allowedUpdates : list string)
  (payload : gmap string value) :
  getPatchPayloadFromUpdate originalEntity updatedEntity = Done payload ->
  payload ≠ ∅ ->
  (forall field, field ∈ dom payload -> field ∈ allowedUpdates) ->
  Update rt e originalEntity updatedEntity allowedUpdates
  = Patch e (ODataID e) (VMap (Some (made, payload))).
Proof.
  intros Hdiff Hne Hall. unfold Update. rewrite Hdiff. simpl.
  assert (firstReadOnly allowedUpdates (fst <$> rangeOf rt payload) = None)
    as ->.
  { apply firstReadOnly_None. intros field Hin. apply Hall.
    by apply range_fields in Hin. }
  rewrite bool_decide_true; [done|].
  destruct (size payload) eqn:Hsz; [|lia].
  by apply map_size_empty_iff in Hsz.
Qed.

(** X7.  When the diff is not empty and all its fields are allowed, [Update] on
    an entity bound to a client sends one PATCH, to the entity's own
    [@odata.id], carrying the payload and the conditional header; it
    returns the error of the transport when the transport fails, and
    otherwise what closing the response body returns. *)
Theorem Update_sends_one_patch_to_the_entity (rt : MapRange) (e : Entity)
  (c : Client.t) (originalEntity updatedEntity : value)
  (allowedUpdates : list string) (payload : gmap string value) :
  getPatchPayloadFromUpdate originalEntity updatedEntity = Done payload ->
  payload ≠ ∅ ->
  (forall field, field ∈ dom payload -> field ∈ allowedUpdates) ->
  client e = Some c ->
  exists o,
    Update rt e originalEntity updatedEntity allowedUpdates = Done o /\
    sent o = [PATCH (ODataID e) (VMap (Some (made, payload))) (ifMatch e).2] /\
    after o = (ifMatch e).1 /\
    returned o =
      match Client.PatchWithHeaders c (ODataID e) (VMap (Some (made, payload)))
                                    (ifMatch e).2 with
      | inl resp => Close (Body resp)
      | inr err => Some err
      end.
Proof.
  intros Hdiff Hne Hall Hc.
  rewrite (Update_allowed rt e _ _ _ _ Hdiff Hne Hall).
  unfold Patch.
  pose proof (ifMatch_flags e) as (_ & _ & _ & Hclient & _).
  destruct (ifMatch e) as [e' header]. simpl in *.
  rewrite Hclient, Hc.
  destruct (Client.PatchWithHeaders c _ _ _); by eexists.
Qed.

Lemma Update_sends_one_patch_to_the_entity_witness :
  exists o,
    Update rangeInOrder (fetchedEntity (quoted "abc123") false)
           (baseRecord "a") (baseRecord "b") ["Name"] = Done o /\
    sent o = [PATCH "/redfish/v1/Chassis/1"
                    (VMap (Some (made, <["Name" := VString "b"]> ∅)))
                    (<["If-Match" := quoted "abc123"]> ∅)] /\
    returned o = None.
Proof.
  assert (getPatchPayloadFromUpdate (baseRecord "a") (baseRecord "b")
          = Done (<["Name" := VString "b"]> ∅)) as Hdiff by reflexivity.
  destruct (Update_sends_one_patch_to_the_entity rangeInOrder
              (fetchedEntity (quoted "abc123") false) (stubClient ∅ [])
              (baseRecord "a") (baseRecord "b") ["Name"]
              (<["Name" := VString "b"]> ∅) Hdiff)
    as (o & Ho & Hsent & _ & Hret).
  - apply insert_non_empty.
  - intros field Hin. apply elem_of_dom in Hin as [v Hv].
    destruct (decide (field = "Name")) as [->|Hne]; [by left|].
    by rewrite lookup_insert_ne in Hv.
  - reflexivity.
  - exists o. split; [exact Ho|]. split; [exact Hsent | exact Hret].
Defined.

Lemma Update_validates_panic_free (rt : MapRange) (e : Entity)
  (originalEntity updatedEntity : value) (allowedUpdates : list string)
  (payload : gmap string value) :
  getPatchPayloadFromUpdate originalEntity updatedEntity = Done payload ->
  (exists o, Update rt e originalEntity updatedEntity allowedUpdates = Done o)
  \/ (payload ≠ ∅ /\
      forall field, field ∈ dom payload -> field ∈ allowedUpdates).
Proof.
  intros Hdiff. unfold Update. rewrite Hdiff. simpl.
  destruct (firstReadOnly allowedUpdates (fst <$> rangeOf rt payload))
    as [field|] eqn:Hfirst; [left; by eexists|].
  case_bool_decide as Hsz; [|left; by eexists].
  right. split.
  - intros ->. rewrite map_size_empty in Hsz. lia.
  - intros field Hin.
    apply (proj1 (firstReadOnly_None _ _) Hfirst). by apply range_fields.
Qed.

(** X8.  On an entity no client is bound to, [Update] panics when it has a
    payload to send, and only then: a field that is not allowed is still
    answered by the read-only error. *)
Theorem Update_without_a_client (rt : MapRange) (e : Entity)
  (originalEntity updatedEntity : value) (allowedUpdates : list string)
  (payload : gmap string value) :
  client e = None ->
  getPatchPayloadFromUpdate originalEntity updatedEntity = Done payload ->
  (Update rt e originalEntity updatedEntity allowedUpdates = Panics <->
   payload ≠ ∅ /\
   forall field, field ∈ dom payload -> field ∈ allowedUpdates).
Proof.
  intros Hc Hdiff. split.
  - intros Hpanic.
    destruct (Update_validates_panic_free rt e originalEntity updatedEntity
                allowedUpdates payload Hdiff) as [Hcase|Hcase]; [|done].
    destruct Hcase as (o & Ho). congruence.
  - intros [Hne Hall].
    rewrite (Update_allowed rt e _ _ _ _ Hdiff Hne Hall).
    unfold Patch.
    pose proof (ifMatch_flags e) as (_ & _ & _ & Hclient & _).
    destruct (ifMatch e) as [e' header]. simpl in *.
    by rewrite Hclient, Hc.
Qed.

Lemma Update_without_a_client_witness :
  Update rangeInOrder zeroEntity (baseRecord "a") (baseRecord "b") ["Name"]
  = Panics.
Proof.
  assert (getPatchPayloadFromUpdate (baseRecord "a") (baseRecord "b")
          = Done (<["Name" := VString "b"]> ∅)) as Hdiff by reflexivity.
  apply (proj2 (Update_without_a_client rangeInOrder zeroEntity
                  (baseRecord "a") (baseRecord "b") ["Name"]
                  (<["Name" := VString "b"]> ∅) eq_refl Hdiff)).
  split; [apply insert_non_empty|].
  intros field Hin. apply elem_of_dom in Hin as [v Hv].
  destruct (decide (field = "Name")) as [->|Hne]; [by left|].
  by rewrite lookup_insert_ne in Hv.
Defined.

(** ** Patch and Post, further *)

Lemma ifMatch_none (e : Entity) :
  disableEtagMatch e = true \/ etag e = "" -> ifMatch e = (e, ∅).
Proof.
  unfold ifMatch. intros [-> | ->].
  - by rewrite andb_false_r.
  - done.
Qed.

(** X9.  With version checking disabled, or with no token known, [Patch] and
    [Post] send no conditional header, whatever the token and the
    stripping flag, and leave the entity as it is. *)
Theorem no_conditional_header_when_disabled_or_untracked (e : Entity)
  (c : Client.t) (uri : string) (payload : value) :
  client e = Some c ->
  disableEtagMatch e = true \/ etag e = "" ->
  (exists o, Patch e uri payload = Done o /\
             sent o = [PATCH uri payload ∅] /\ after o = e) /\
  (exists o, Post e uri payload = Done o /\
             sent o = [POST uri payload ∅] /\ after o = e).
Proof.
  intros Hc Hoff. unfold Patch, Post. rewrite (ifMatch_none e Hoff), Hc.
  split.
  - destruct (Client.PatchWithHeaders c uri payload ∅); by eexists.
  - destruct (Client.PostWithHeaders c uri payload ∅); by eexists.
Qed.

Lemma no_conditional_header_when_disabled_or_untracked_witness :
  exists o,
    Patch (DisableEtagMatch (fetchedEntity (quoted "abc123") true) true)
          "/redfish/v1/Chassis/1" (VMap (Some (made, ∅))) = Done o /\
    sent o = [PATCH "/redfish/v1/Chassis/1" (VMap (Some (made, ∅))) ∅].
Proof.
  destruct (no_conditional_header_when_disabled_or_untracked
              (DisableEtagMatch (fetchedEntity (quoted "abc123") true) true)
              (stubClient ∅ []) "/redfish/v1/Chassis/1" (VMap (Some (made, ∅)))
              eq_refl (or_introl eq_refl)) as [(o & Ho & Hsent & _) _].
  exists o. split; [exact Ho | exact Hsent].
Defined.

(** X10.  [Post] builds the same conditional header as [Patch] and leaves the
    entity in the same state; the two differ in the method of the request
    alone. *)
Theorem Post_builds_the_header_of_Patch (e : Entity) (c : Client.t)
  (uri : string) (payload : value) :
  client e = Some c ->
  exists header op oq,
    Patch e uri payload = Done op /\
    Post e uri payload = Done oq /\
    sent op = [PATCH uri payload header] /\
    sent oq = [POST uri payload header] /\
    after op = after oq.
Proof.
  intros Hc. unfold Patch, Post.
  pose proof (ifMatch_flags e) as (_ & _ & _ & Hclient & _).
  destruct (ifMatch e) as [e' header]. simpl in *. rewrite Hclient, Hc.
  exists header.
  destruct (Client.PatchWithHeaders c uri payload header),
    (Client.PostWithHeaders c uri payload header); by eexists _, _.
Qed.

Lemma Post_builds_the_header_of_Patch_witness :
  exists header op oq,
    Patch (fetchedEntity (quoted "abc123") true) "/a" (VMap (Some (made, ∅)))
      = Done op /\
    Post (fetchedEntity (quoted "abc123") true) "/a" (VMap (Some (made, ∅)))
      = Done oq /\
    sent op = [PATCH "/a" (VMap (Some (made, ∅))) header] /\
    sent oq = [POST "/a" (VMap (Some (made, ∅))) header] /\
    after op = after oq.
Proof.
  exact (Post_builds_the_header_of_Patch
           (fetchedEntity (quoted "abc123") true) (stubClient ∅ [])
           "/a" (VMap (Some (made, ∅))) eq_refl).
Defined.

(** *** Trimming twice *)

Lemma rev_app_rev_app (s a b : string) :
  String.rev_app (String.rev_app s a) b = String.rev_app a (s ++ b).
Proof.
  revert a b. induction s as [|x s IH]; intros a b; [done|].
  change (String.rev_app (String.rev_app s (String x a)) b
          = String.rev_app a (String x (s ++ b))).
  by rewrite IH.
Qed.

Lemma rev_involutive (s : string) : String.rev (String.rev s) = s.
Proof.
  unfold String.rev. rewrite rev_app_rev_app. simpl. apply append_nil_r.
Qed.

Lemma rev_app_append (s a : string) :
  String.rev_app s a = String.rev s ++ a.
Proof.
  revert a. induction s as [|x s IH]; intros a; [done|].
  change (String.rev_app s (String x a) = String.rev_app s (String x "") ++ a).
  rewrite (IH (String x a)), (IH (String x "")). by rewrite append_assoc.
Qed.

Lemma rev_append (a b : string) :
  String.rev (a ++ b) = String.rev b ++ String.rev a.
Proof.
  induction a as [|x a IH].
  - by rewrite append_nil_r.
  - change (String.rev_app (a ++ b) (String x "")
            = String.rev b ++ String.rev_app a (String x "")).
    rewrite !rev_app_append, IH. by rewrite append_assoc.
Qed.

Lemma trimLeft_length (s : string) :
  (String.length (trimLeft s) ≤ String.length s)%nat.
Proof.
  induction s as [|x s IH]; simpl; [done|].
  destruct (Ascii.eqb x quote); simpl; lia.
Qed.

Lemma trimLeft_split (s : string) :
  exists q, s = q ++ trimLeft s /\ trimLeft q = "".
Proof.
  induction s as [|x s (q & Hs & Hq)]; [by exists ""|].
  simpl. destruct (Ascii.eqb x quote) eqn:Hx.
  - exists (String x q). split.
    + change (String x s = String x (q ++ trimLeft s)). by f_equal.
    + simpl. by rewrite Hx.
  - by exists "".
Qed.

Lemma trimLeft_fixed (x : Ascii.ascii) (s : string) :
  trimLeft (String x s) = String x s -> Ascii.eqb x quote = false.
Proof.
  simpl. destruct (Ascii.eqb x quote); [|done].
  intros Heq. pose proof (trimLeft_length s) as Hlen.
  rewrite Heq in Hlen. simpl in Hlen. lia.
Qed.

Lemma trimLeft_idem (s : string) : trimLeft (trimLeft s) = trimLeft s.
Proof.
  induction s as [|x s IH]; simpl; [done|].
  destruct (Ascii.eqb x quote) eqn:Hx; [done|]. simpl. by rewrite Hx.
Qed.

(** [strings.Trim] applied to what it returned changes nothing. *)
Lemma Trim_idem (s : string) : Trim (Trim s) = Trim s.
Proof.
  unfold Trim.
  set (u := trimLeft s).
  set (t := trimLeft (String.rev u)).
  assert (trimLeft (String.rev t) = String.rev t) as Hfix.
  { destruct (trimLeft_split (String.rev u)) as (q & Hu & Hq). fold t in Hu.
    apply (f_equal String.rev) in Hu.
    rewrite rev_involutive, rev_append in Hu.
    destruct (String.rev t) as [|x r] eqn:Hr; [done|].
    change (u = String x (r ++ String.rev q)) in Hu.
    assert (trimLeft u = u) as Hfixu by apply trimLeft_idem.
    rewrite Hu in Hfixu. apply trimLeft_fixed in Hfixu.
    simpl. by rewrite Hfixu. }
  rewrite Hfix, rev_involutive. unfold t. by rewrite trimLeft_idem.
Qed.

Lemma ifMatch_stable (e : Entity) : (ifMatch (ifMatch e).1).1 = (ifMatch e).1.
Proof.
  unfold ifMatch at 2.
  destruct (negb (bool_decide (etag e = "")) && negb (disableEtagMatch e))
    eqn:Hcond; simpl.
  - destruct (stripEtagQuotes e) eqn:Hstrip; simpl.
    + unfold ifMatch. simpl. rewrite Hstrip, Hcond.
      destruct (negb (bool_decide (Trim (etag e) = "")) && _); [|done].
      unfold setEtag. simpl. by rewrite Trim_idem.
    + unfold ifMatch. by rewrite Hcond, Hstrip.
  - unfold ifMatch. by rewrite Hcond.
Qed.

Lemma ifMatch_on (e : Entity) :
  etag e ≠ "" ->
  disableEtagMatch e = false ->
  ifMatch e =
  (if stripEtagQuotes e then setEtag e (Trim (etag e)) else e,
   <["If-Match" := if stripEtagQuotes e then Trim (etag e) else etag e]> ∅).
Proof.
  intros Htag Hdis. unfold ifMatch.
  rewrite Hdis, (bool_decide_false _ Htag). simpl.
  by destruct (stripEtagQuotes e).
Qed.

Lemma ifMatch_header_stable (e : Entity) :
  etag (ifMatch e).1 ≠ "" \/ etag e = "" \/ disableEtagMatch e = true ->
  (ifMatch (ifMatch e).1).2 = (ifMatch e).2.
Proof.
  intros Hcase.
  destruct (decide (etag e = "")) as [Hempty|Hempty].
  { rewrite (ifMatch_none e (or_intror Hempty)). simpl.
    by rewrite (ifMatch_none e (or_intror Hempty)). }
  destruct (disableEtagMatch e) eqn:Hdis.
  { rewrite (ifMatch_none e (or_introl Hdis)). simpl.
    by rewrite (ifMatch_none e (or_introl Hdis)). }
  rewrite (ifMatch_on e Hempty Hdis) in *.
  destruct (stripEtagQuotes e) eqn:Hstrip; simpl in *.
  - destruct Hcase as [Hne | [Hne | Hne]]; try done.
    rewrite ifMatch_on by done. simpl. rewrite Hstrip. by rewrite Trim_idem.
  - rewrite ifMatch_on by done. by rewrite Hstrip.
Qed.

(** X11.  A second [Patch] leaves the entity as the first left it: the token is
    trimmed once.  The second request carries the header of the first,
    unless the token was nothing but quotes, in which case the first
    request carries an empty [If-Match] and the second none. *)
Theorem Patch_again_keeps_the_state (e : Entity) (c : Client.t)
  (uri : string) (payload : value) (o1 : outcome Entity) :
  client e = Some c ->
  Patch e uri payload = Done o1 ->
  exists o2,
    Patch (after o1) uri payload = Done o2 /\
    after o2 = after o1 /\
    (etag (after o1) ≠ "" \/ etag e = "" \/ disableEtagMatch e = true ->
     sent o2 = sent o1).
Proof.
  intros Hc Ho1.
  pose proof (Patch_after e uri payload o1 Ho1) as Hafter.
  pose proof (ifMatch_flags e) as (_ & _ & _ & Hclient & Hstrip & Hdis).
  pose proof (ifMatch_stable e) as Hstable.
  pose proof (ifMatch_flags (ifMatch e).1) as (_ & _ & _ & Hclient2 & _).
  assert (exists o2, Patch (after o1) uri payload = Done o2 /\
                     sent o2 = [PATCH uri payload (ifMatch (after o1)).2])
    as (o2 & Ho2 & Hsent2).
  { unfold Patch. rewrite Hafter.
    destruct (ifMatch (ifMatch e).1) as [e2 h2]. simpl in *.
    rewrite Hclient2, Hclient, Hc.
    destruct (Client.PatchWithHeaders c uri payload h2); by eexists. }
  exists o2. split; [done|]. split.
  - rewrite (Patch_after _ _ _ _ Ho2), Hafter. exact Hstable.
  - intros Hcase. rewrite Hsent2.
    assert (sent o1 = [PATCH uri payload (ifMatch e).2]) as ->.
    { revert Ho1. unfold Patch.
      destruct (ifMatch e) as [e1 h1]. simpl in *. rewrite Hclient, Hc.
      by destruct (Client.PatchWithHeaders c uri payload h1); intros [= <-]. }
    rewrite Hafter in *. by rewrite ifMatch_header_stable.
Qed.

Lemma Patch_again_keeps_the_state_witness :
  exists o1 o2,
    Patch (fetchedEntity (quoted "abc123") true) "/a" (VMap (Some (made, ∅)))
      = Done o1 /\
    Patch (after o1) "/a" (VMap (Some (made, ∅))) = Done o2 /\
    after o2 = after o1 /\ sent o2 = sent o1.
Proof.
  eexists.
  destruct (Patch_again_keeps_the_state
              (fetchedEntity (quoted "abc123") true) (stubClient ∅ [])
              "/a" (VMap (Some (made, ∅))) _ eq_refl eq_refl)
    as (o2 & Ho2 & Hstate & Hsent).
  exists o2. split; [reflexivity|]. split; [exact Ho2|].
  split; [exact Hstate|]. apply Hsent. left. discriminate.
Defined.

(** ** Get, further *)

Lemma MapCheck_Get_sent `{Resource T} rt c uri (t : T) o :
  MapCheck.Get rt c uri t = Done o -> sent o = [GET uri].
Proof.
  unfold MapCheck.Get.
  destruct (Client.Get c uri) as [resp|?]; [|by intros [= <-]].
  destruct (ReadAll (Body resp)) as [data|?]; [|by intros [= <-]].
  destruct (unmarshalMap data) as [check|?]; [|by intros [= <-]].
  destruct (Unmarshal _ t) as [t' [e|]]; [by intros [= <-]|].
  destruct (Header resp !! "Etag") as [[|tag ?]|]; simpl;
    try (intros ?; discriminate); by intros [= <-].
Qed.

Lemma StructCheck_Get_sent `{Resource T} c uri (t : T) o :
  StructCheck.Get c uri t = Done o -> sent o = [GET uri].
Proof.
  unfold StructCheck.Get.
  destruct (Client.Get c uri) as [resp|?]; [|by intros [= <-]].
  destruct (ReadAll (Body resp)) as [data|?]; [|by intros [= <-]].
  destruct (StructCheck.unmarshalCheck data) as [check|?];
    [|by intros [= <-]].
  destruct (Unmarshal _ t) as [t' [e|]]; [by intros [= <-]|].
  destruct (Header resp !! "Etag") as [[|tag ?]|]; simpl;
    try (intros ?; discriminate); by intros [= <-].
Qed.

(** X12.  A [Get] that returns, with an error or without, has sent one request:
    the GET of the address it was given. *)
Theorem Get_sends_one_request `{Resource T} (rt : MapRange) (c : Client.t)
  (uri : string) (t : T) (o : outcome T) :
  MapCheck.Get rt c uri t = Done o \/ StructCheck.Get c uri t = Done o ->
  sent o = [GET uri].
Proof.
  intros [Ho|Ho]; eauto using MapCheck_Get_sent, StructCheck_Get_sent.
Qed.

Lemma Get_sends_one_request_witness :
  exists o,
    MapCheck.Get rangeInOrder (stubClient ∅ systemBody)
                 "/redfish/v1/Systems/1" zeroDataStorageLineOfService
      = Done o /\
    sent o = [GET "/redfish/v1/Systems/1"].
Proof.
  eexists. split; [reflexivity|].
  apply (Get_sends_one_request rangeInOrder (stubClient ∅ systemBody)
           "/redfish/v1/Systems/1" zeroDataStorageLineOfService).
  left. reflexivity.
Defined.

Lemma Unmarshal_failure_DataStorageLineOfService data
  (d : DataStorageLineOfService) err :
  (Unmarshal data d).2 = Some err -> (Unmarshal data d).1 = d.
Proof.
  destruct data; simpl; try done.
  apply DataStorageLineOfService_decode_failure.
Qed.

(** X13.  A [Get] into a DataStorageLineOfService that returns an error, of the
    transport, of the reading or of the decoding, leaves the record
    exactly as it was: its fields, its token, its client and its flags. *)
Theorem failed_Get_leaves_the_record (rt : MapRange) (c : Client.t)
  (uri : string) (d : DataStorageLineOfService)
  (o : outcome DataStorageLineOfService) (err : error) :
  MapCheck.Get rt c uri d = Done o \/ StructCheck.Get c uri d = Done o ->
  returned o = Some err ->
  after o = d.
Proof.
  intros [Ho|Ho]; revert Ho.
  - unfold MapCheck.Get.
    destruct (Client.Get c uri) as [resp|?]; [|by intros [= <-]].
    destruct (ReadAll (Body resp)) as [data|?]; [|by intros [= <-]].
    destruct (unmarshalMap data) as [check|?]; [|by intros [= <-]].
    destruct (Unmarshal _ d) as [t' [e|]] eqn:Hdec.
    + intros [= <-] _. simpl.
      match type of Hdec with Unmarshal ?x _ = _ =>
        pose proof (Unmarshal_failure_DataStorageLineOfService x d e) as Hk
      end.
      rewrite Hdec in Hk. by apply Hk.
    + destruct (Header resp !! "Etag") as [[|tag ?]|]; simpl;
        try (intros ?; discriminate); intros [= <-]; discriminate.
  - unfold StructCheck.Get.
    destruct (Client.Get c uri) as [resp|?]; [|by intros [= <-]].
    destruct (ReadAll (Body resp)) as [data|?]; [|by intros [= <-]].
    destruct (StructCheck.unmarshalCheck data) as [check|?];
      [|by intros [= <-]].
    destruct (Unmarshal _ d) as [t' [e|]] eqn:Hdec.
    + intros [= <-] _. simpl.
      match type of Hdec with Unmarshal ?x _ = _ =>
        pose proof (Unmarshal_failure_DataStorageLineOfService x d e) as Hk
      end.
      rewrite Hdec in Hk. by apply Hk.
    + destruct (Header resp !! "Etag") as [[|tag ?]|]; simpl;
        try (intros ?; discriminate); intros [= <-]; discriminate.
Qed.

Lemma failed_Get_leaves_the_record_witness :
  exists o,
    MapCheck.Get rangeInOrder (stubClient taggedHeader systemBody)
                 "/redfish/v1/Systems/1"
                 (setDescription "kept" zeroDataStorageLineOfService)
      = Done o /\
    after o = setDescription "kept" zeroDataStorageLineOfService.
Proof.
  eexists. split; [reflexivity|].
  apply (failed_Get_leaves_the_record rangeInOrder
           (stubClient taggedHeader systemBody) "/redfish/v1/Systems/1"
           (setDescription "kept" zeroDataStorageLineOfService) _
           (UnmarshalTypeError "number" "string")).
  - left. reflexivity.
  - reflexivity.
Defined.

(** Decoding into a DataStorageLineOfService starts from a fresh record,
    so what it returns without error has the unexported fields of a fresh
    entity. *)
Lemma DataStorageLineOfService_decode_unexported members d t :
  DataStorageLineOfService_UnmarshalJSON members d = (t, None) ->
  unexported (Entity' t) = unexported zeroEntity.
Proof.
  unfold DataStorageLineOfService_UnmarshalJSON.
  destruct (decodeObject _ _ _) as [t' [e|]] eqn:Hdec; [done|].
  intros [= <-].
  change t' with ((t', @None error).1). rewrite <- Hdec.
  apply (decodeObject_frame (fun d => unexported (Entity' d))).
  intros f Hin j t0.
  unfold dataStorageLineOfServiceFields, entityFields in Hin. simpl in Hin.
  repeat (apply elem_of_cons in Hin as [->|Hin];
          [ first [ by destruct j
                  | simpl; unfold storeInt; destruct j; try done;
                    by case_bool_decide ] |]).
  by apply elem_of_nil in Hin.
Qed.

(** The first value of the [Etag] header of a response, empty when the
    response has none. *)
Definition firstEtag (resp : Response) : string :=
  match Header resp !! "Etag" with
  | Some (tag :: _) => tag
  | _ => ""
  end.

(** X14.  A [Get] that decodes an object into a DataStorageLineOfService and
    returns nil leaves the record bound to the client, with the first
    value of the [Etag] header as its token, or no token when the response
    has no such header, and with both flags off: the decoding overwrites
    the record, so a token and flags set before are gone. *)
Theorem successful_Get_renews_the_state (rt : MapRange) (c : Client.t)
  (uri : string) (resp : Response) (members : list (string * json))
  (d : DataStorageLineOfService) (o : outcome DataStorageLineOfService) :
  Client.Get c uri = inl resp ->
  ReadAll (Body resp) = inl (Some (DocObject members)) ->
  MapCheck.Get rt c uri d = Done o \/ StructCheck.Get c uri d = Done o ->
  returned o = None ->
  client (Entity' (after o)) = Some c /\
  etag (Entity' (after o)) = firstEtag resp /\
  stripEtagQuotes (Entity' (after o)) = false /\
  disableEtagMatch (Entity' (after o)) = false.
Proof.
  intros Hget Hread Ho Hnil.
  assert (exists t', after o =
            setEntity (SetClient (tokenOf resp (Entity' t')) c) t' /\
            unexported (Entity' t') = unexported zeroEntity)
    as (t' & -> & Hun).
  { destruct Ho as [Ho|Ho].
    - destruct (MapCheck_Get_success rt c uri d o Ho Hnil)
        as (resp' & data & check & t' & Hget' & Hread' & Hcheck & Hdec & Ha & _).
      rewrite Hget in Hget'. injection Hget' as <-.
      rewrite Hread in Hread'. injection Hread' as <-.
      unfold unmarshalMap in Hcheck.
      destruct (forallb _ members); [|done].
      injection Hcheck as <-. exists t'. split; [done|].
      destruct (Marshal_members
                  (MapCheck.reshape rt
                     (foldl (fun m kv => <[kv.1 := asDecoded kv.2]> m)
                            ∅ members)))
        as (ms & Hms & _).
      change (MapCheck.reshape rt <$> Some ?m)
        with (Some (MapCheck.reshape rt m)) in Hdec.
      rewrite Hms in Hdec.
      by apply (DataStorageLineOfService_decode_unexported ms d).
    - destruct (StructCheck_Get_success c uri d o Ho Hnil)
        as (resp' & data & check & t' & Hget' & _ & _ & Hdec & Ha & _).
      rewrite Hget in Hget'. injection Hget' as <-.
      exists t'. split; [done|].
      by apply (DataStorageLineOfService_decode_unexported
                  [("id", asEncoded (StructCheck.checkID check))] d). }
  unfold unexported in Hun. injection Hun as _ Htag Hstrip Hdis.
  simpl. unfold tokenOf, firstEtag.
  destruct (Header resp !! "Etag") as [[|tag ?]|]; simpl; done.
Qed.

Lemma successful_Get_renews_the_state_witness :
  exists o,
    MapCheck.Get rangeInOrder (stubClient ∅ serviceBody)
                 "/redfish/v1/StorageServices/1/Lines/2"
                 (setEntity (fetchedEntity "stale" true)
                            zeroDataStorageLineOfService)
      = Done o /\
    etag (Entity' (after o)) = "" /\
    stripEtagQuotes (Entity' (after o)) = false.
Proof.
  eexists. split; [reflexivity|].
  match goal with
  | |- etag (Entity' (after ?o)) = _ /\ _ =>
      assert (MapCheck.Get rangeInOrder (stubClient ∅ serviceBody)
                "/redfish/v1/StorageServices/1/Lines/2"
                (setEntity (fetchedEntity "stale" true)
                           zeroDataStorageLineOfService) = Done o) as Hget
        by reflexivity;
      destruct (successful_Get_renews_the_state rangeInOrder
                  (stubClient ∅ serviceBody)
                  "/redfish/v1/StorageServices/1/Lines/2"
                  (stubResponse ∅ serviceBody) serviceBody
                  (setEntity (fetchedEntity "stale" true)
                             zeroDataStorageLineOfService) o
                  eq_refl eq_refl (or_introl Hget) eq_refl)
        as (_ & Htag & Hstrip & _)
  end.
  split; [exact Htag | exact Hstrip].
Defined.

(** *** The reshaping *)

(** X15.  The reshaping of the first revision keeps the members of the body: it
    rewrites values in place and neither drops nor adds a key. *)
Theorem reshape_keeps_the_keys (rt : MapRange) (check : gmap string json) :
  dom (MapCheck.reshape rt check) = dom check.
Proof. apply reshape_dom. Qed.

Lemma drives_rewrites rt m k :
  k ≠ "Id" -> k ≠ "Links" -> MapCheck.drives rt m !! k = m !! k.
Proof.
  intros Hid Hlinks. rewrite drives_lookup by done.
  by apply numberToString_lookup_ne.
Qed.

Lemma reshape_lookup_other (rt : MapRange) (check : gmap string json)
  (k : string) :
  k ∉ ["Socket"; "Id"; "Links"; "MemoryLocation"; "Controllers"] ->
  MapCheck.reshape rt check !! k = check !! k.
Proof.
  intros Hk.
  assert (k ≠ "Socket" /\ k ≠ "Id" /\ k ≠ "Links" /\ k ≠ "MemoryLocation"
          /\ k ≠ "Controllers") as (H1 & H2 & H3 & H4 & H5).
  { repeat split; intros ->; apply Hk; repeat constructor. }
  unfold MapCheck.reshape.
  destruct (asString (check !! "@odata.id")) as [odataId|]; [|done].
  rewrite (when_lookup _ "Links" _ _ k managers_rewritesOnly) by done.
  rewrite storages_when.
  rewrite (when_lookup _ "Controllers" _ _ k networkAdapters_rewritesOnly)
    by done.
  rewrite (when_lookup _ "MemoryLocation" _ _ k memory_rewritesOnly) by done.
  rewrite (when_lookup _ "Id" _ _ k pcieDevices_rewritesOnly) by done.
  destruct (Contains odataId "/redfish/v1/Chassis/1/Drives/"); simpl.
  - rewrite drives_rewrites by done.
    by apply (when_lookup _ "Socket"); [apply processors_rewritesOnly|].
  - by apply (when_lookup _ "Socket"); [apply processors_rewritesOnly|].
Qed.

(** X16.  The only members the reshaping may rewrite are [Socket], [Id],
    [Links], [MemoryLocation] and [Controllers]: every other key of the
    decoded body is bound after the reshaping to what it was bound to
    before. *)
Theorem reshape_leaves_the_other_members (rt : MapRange)
  (check : gmap string json) (k : string) :
  k ∉ ["Socket"; "Id"; "Links"; "MemoryLocation"; "Controllers"] ->
  MapCheck.reshape rt check !! k = check !! k.
Proof. apply reshape_lookup_other. Qed.

Lemma reshape_leaves_the_other_members_witness :
  MapCheck.reshape rangeInOrder
    (<["Name" := JString "disk"]>
       (<["@odata.id" := JString "/redfish/v1/Chassis/1/Drives/3"]> ∅))
    !! "Name" = Some (JString "disk").
Proof.
  rewrite reshape_leaves_the_other_members.
  - apply lookup_insert_eq.
  - rewrite !elem_of_cons, elem_of_nil.
    intros [H|[H|[H|[H|[H|H]]]]]; done.
Defined.

(** X17.  The reshaping does nothing to a body whose [@odata.id] is absent or
    no string, nor to one whose [@odata.id] names none of the paths it
    looks for. *)
Theorem reshape_is_the_identity_elsewhere (rt : MapRange)
  (check : gmap string json) :
  (asString (check !! "@odata.id") = None \/
   exists odataId,
     check !! "@odata.id" = Some (JString odataId) /\
     Contains odataId "/redfish/v1/Systems/1/Processors/" = false /\
     Contains odataId "/redfish/v1/Chassis/1/Drives/" = false /\
     Contains odataId "/redfish/v1/Chassis/1/PCIeDevices/" = false /\
     Contains odataId "/redfish/v1/Systems/1/Memory/" = false /\
     Contains odataId "/redfish/v1/Chassis/1/NetworkAdapters/" = false /\
     odataId ≠ "/redfish/v1/Managers/1") ->
  MapCheck.reshape rt check = check.
Proof.
  unfold MapCheck.reshape.
  intros [-> | (odataId & -> & H1 & H2 & H3 & H4 & H5 & Hm)]; [done|].
  cbn [asString]. rewrite H1, H2, H3, H4, H5, (bool_decide_false _ Hm).
  cbn [MapCheck.when]. apply storages_when.
Qed.

Lemma reshape_is_the_identity_elsewhere_witness :
  MapCheck.reshape rangeInOrder
    (<["Id" := JNumber 7]>
       (<["@odata.id" := JString "/redfish/v1/Systems/1"]> ∅))
  = <["Id" := JNumber 7]>
      (<["@odata.id" := JString "/redfish/v1/Systems/1"]> ∅).
Proof.
  apply reshape_is_the_identity_elsewhere. right.
  exists "/redfish/v1/Systems/1". repeat split; try reflexivity.
  discriminate.
Defined.

(** *** What the decoding stores *)

(** Of the fields of a DataStorageLineOfService, only the one named
    [Description] assigns the description. *)
Lemma DataStorageLineOfService_Description_frame k w g t :
  foldName k ≠ "DESCRIPTION" ->
  findField dataStorageLineOfServiceFields k = Some g ->
  Description (store g (goType g) w t).1 = Description t.
Proof.
  intros Hk Hg. apply findField_elem in Hg as [Hin Hname].
  unfold dataStorageLineOfServiceFields, entityFields in Hin. simpl in Hin.
  repeat (apply elem_of_cons in Hin as [->|Hin];
          [ first [ by destruct w
                  | simpl; unfold storeInt; destruct w; try done;
                    by case_bool_decide
                  | exfalso; simpl in Hname;
                    destruct Hname as [<-|Hname]; by apply Hk ] |]).
  by apply elem_of_nil in Hin.
Qed.

(** X18.  The first revision of [Get] decodes the fields of the record itself:
    when the body carries a string under [Description], the only member
    named so up to the folding of case that encoding/json applies (under
    which the long s and the Kelvin sign are an s and a k), a [Get] that
    returns nil has stored it as the description of the record. *)
Theorem Get_stores_the_description_of_the_body
  (rt : MapRange) (c : Client.t) (uri : string) (resp : Response)
  (members : list (string * json)) (check : gmap string json) (s : string)
  (d : DataStorageLineOfService) (o : outcome DataStorageLineOfService) :
  Client.Get c uri = inl resp ->
  ReadAll (Body resp) = inl (Some (DocObject members)) ->
  unmarshalMap (Some (DocObject members)) = inl (Some check) ->
  check !! "Description" = Some (JString s) ->
  (forall k, k ∈ dom check -> foldName k = "DESCRIPTION" ->
             k = "Description") ->
  MapCheck.Get rt c uri d = Done o ->
  returned o = None ->
  Description (after o) = s.
Proof.
  intros Hget Hread Hcheck Hdesc Hkeys Ho Hnil.
  destruct (MapCheck_Get_success rt c uri d o Ho Hnil)
    as (resp' & data & check' & t' & Hget' & Hread' & Hcheck' & Hdec & -> & _).
  rewrite Hget in Hget'. injection Hget' as <-.
  rewrite Hread in Hread'. injection Hread' as <-.
  rewrite Hcheck in Hcheck'. injection Hcheck' as <-.
  simpl.
  assert (MapCheck.reshape rt check !! "Description" = Some (JString s))
    as Hdesc'.
  { rewrite reshape_lookup_other; [done|].
    rewrite !elem_of_cons, elem_of_nil.
    intros [H|[H|[H|[H|[H|H]]]]]; done. }
  destruct (Marshal_members (MapCheck.reshape rt check))
    as (ms & Hms & Hnodup & Hin).
  change (MapCheck.reshape rt <$> Some check)
    with (Some (MapCheck.reshape rt check)) in Hdec.
  rewrite Hms in Hdec.
  change (DataStorageLineOfService_UnmarshalJSON ms d = (t', None)) in Hdec.
  unfold DataStorageLineOfService_UnmarshalJSON in Hdec.
  destruct (decodeObject dataStorageLineOfServiceFields ms
              zeroDataStorageLineOfService) as [t err] eqn:Hobj.
  destruct err; [done|]. injection Hdec as <-.
  change t with ((t, @None error).1). rewrite <- Hobj.
  apply (decodeObject_assigned Description
           dataStorageLineOfServiceFields "Description" (JString s) s
           (mkCodec "Description" "string" (storeString setDescription))).
  - done.
  - apply Hin. by rewrite Hdesc'.
  - done.
  - done.
  - intros k w g t0 Hk Hne Hg.
    apply (DataStorageLineOfService_Description_frame k); [|done].
    intros Hfold. apply Hne, Hkeys; [|done].
    rewrite <- (reshape_dom rt check). apply elem_of_dom.
    apply Hin in Hk. by destruct (MapCheck.reshape rt check !! k).
Qed.

Lemma Get_stores_the_description_of_the_body_witness :
  exists o,
    MapCheck.Get rangeInOrder (stubClient ∅ serviceBody)
                 "/redfish/v1/StorageServices/1/Lines/2"
                 zeroDataStorageLineOfService = Done o /\
    returned o = None /\
    Description (after o) = "mirrored".
Proof.
  eexists. split; [reflexivity|]. split; [reflexivity|].
  eapply (Get_stores_the_description_of_the_body rangeInOrder
            (stubClient ∅ serviceBody)
            "/redfish/v1/StorageServices/1/Lines/2"
            (stubResponse ∅ serviceBody) serviceBody _ "mirrored"
            zeroDataStorageLineOfService); try reflexivity.
  intros k Hk Hfold. simpl in Hk.
  rewrite !dom_insert_L, dom_empty_L in Hk.
  rewrite !elem_of_union, !elem_of_singleton in Hk.
  destruct Hk as [->|[->|[->|[->|[->|Hk]]]]]; done.
Defined.

(** *** Numeric identifiers that are not converted *)

(** X19.  In the first revision, a body that carries the identifier as a number
    and names neither a drive nor a PCIe device of the first chassis is
    refused: [Get] returns a decoding error and leaves the record as it
    was. *)
Theorem Get_refuses_a_numeric_identifier_elsewhere
  (rt : MapRange) (c : Client.t) (uri : string) (resp : Response)
  (members : list (string * json)) (check : gmap string json) (n : Z)
  (d : DataStorageLineOfService) :
  Client.Get c uri = inl resp ->
  ReadAll (Body resp) = inl (Some (DocObject members)) ->
  unmarshalMap (Some (DocObject members)) = inl (Some check) ->
  (forall odataId, check !! "@odata.id" = Some (JString odataId) ->
                   normalizesId odataId = false) ->
  check !! "Id" = Some (JNumber n) ->
  exists err,
    MapCheck.Get rt c uri d
    = Done {| returned := Some err; after := d; sent := [GET uri] |}.
Proof.
  intros Hget Hread Hcheck Hpath Hid.
  unfold MapCheck.Get. rewrite Hget, Hread, Hcheck.
  change (MapCheck.reshape rt <$> Some check)
    with (Some (MapCheck.reshape rt check)).
  destruct (Marshal_members (MapCheck.reshape rt check))
    as (ms & Hms & _ & Hin).
  rewrite Hms.
  change (Unmarshal (DocObject ms) d)
    with (DataStorageLineOfService_UnmarshalJSON ms d).
  unfold DataStorageLineOfService_UnmarshalJSON.
  assert (is_Some (decodeObject dataStorageLineOfServiceFields ms
                     zeroDataStorageLineOfService).2) as [err Herr].
  { apply (decodeObject_mismatch dataStorageLineOfServiceFields "Id"
             (JNumber (shortest n))
             (mkCodec "Id" "string"
                (storeString (fun s t =>
                   setEntity (setID s (Entity' t)) t)))).
    - apply Hin. by rewrite reshape_Id_elsewhere, Hid.
    - done.
    - intros t. by eexists. }
  destruct (decodeObject _ _ _) as [t e]. simpl in Herr. subst e.
  by exists err.
Qed.

Lemma Get_refuses_a_numeric_identifier_elsewhere_witness :
  exists err,
    MapCheck.Get rangeInOrder (stubClient ∅ systemBody)
                 "/redfish/v1/Systems/1" zeroDataStorageLineOfService
    = Done {| returned := Some err; after := zeroDataStorageLineOfService;
              sent := [GET "/redfish/v1/Systems/1"] |}.
Proof.
  apply (Get_refuses_a_numeric_identifier_elsewhere rangeInOrder
           (stubClient ∅ systemBody) "/redfish/v1/Systems/1"
           (stubResponse ∅ systemBody) systemBody
           (foldl (fun m kv => <[kv.1 := asDecoded kv.2]> m) ∅ systemBody) 7
           zeroDataStorageLineOfService); try reflexivity.
  intros odataId Hid.
  assert (odataId = "/redfish/v1/Systems/1") as ->.
  { assert (Some (JString odataId) = Some (JString "/redfish/v1/Systems/1"))
      as Heq by (rewrite <- Hid; reflexivity).
    by injection Heq. }
  reflexivity.
Defined.

(** X20.  In the second revision, a body that carries the identifier as a
    number is refused whatever the resource: the branch that would convert
    it tests for a Go [int], which the decoder never produces, so the
    number reaches the string field, [Get] returns the type error and the
    record stays as it was.  When a member named [id] up to case holds a
    number beyond the range of [float64], the first decoding already
    fails, with the error of that number. *)
Theorem StructCheck_Get_refuses_a_numeric_identifier
  (c : Client.t) (uri : string) (resp : Response)
  (pre post : list (string * json)) (k : string) (n : Z)
  (d : DataStorageLineOfService) :
  Client.Get c uri = inl resp ->
  ReadAll (Body resp) = inl (Some (DocObject (pre ++ (k, JNumber n) :: post))) ->
  foldName k = "ID" ->
  Forall (fun kv => foldName kv.1 ≠ "ID") post ->
  StructCheck.Get c uri d
  = Done {| returned :=
              Some (UnmarshalTypeError "number"
                      (if forallb jsonFits (idMembers pre ++ [JNumber n])%list
                       then "string" else "float64"));
            after := d; sent := [GET uri] |}.
Proof.
  intros Hget Hread Hk Hpost.
  unfold StructCheck.Get.
  rewrite Hget, Hread, unmarshalCheck_spec, (idMembers_last pre post k _ Hk Hpost).
  destruct (forallb jsonFits (idMembers pre ++ [JNumber n])%list);
    [|reflexivity].
  rewrite last_snoc. reflexivity.
Qed.

Lemma StructCheck_Get_refuses_a_numeric_identifier_witness :
  StructCheck.Get (stubClient ∅ driveBody) "/redfish/v1/Chassis/1/Drives/3"
                  zeroDataStorageLineOfService
  = Done {| returned := Some (UnmarshalTypeError "number" "string");
            after := zeroDataStorageLineOfService;
            sent := [GET "/redfish/v1/Chassis/1/Drives/3"] |}.
Proof.
  apply (StructCheck_Get_refuses_a_numeric_identifier
           (stubClient ∅ driveBody) "/redfish/v1/Chassis/1/Drives/3"
           (stubResponse ∅ driveBody)
           [("@odata.id", JString "/redfish/v1/Chassis/1/Drives/3")]
           [("Name", JString "disk")] "Id" 7 zeroDataStorageLineOfService);
    try reflexivity.
  apply Forall_cons. split; [discriminate | apply Forall_nil_2].
Defined.

(** X21.  In the second revision, whatever the body, a [Get] that returns nil
    leaves every exported field of the record but the identifier at its
    zero value. *)
Theorem StructCheck_Get_fills_the_identifier_alone
  (c : Client.t) (uri : string) (d : DataStorageLineOfService)
  (o : outcome DataStorageLineOfService) :
  StructCheck.Get c uri d = Done o ->
  returned o = None ->
  setEntity zeroEntity (after o) = zeroDataStorageLineOfService /\
  ODataID (Entity' (after o)) = "" /\
  Name_ (Entity' (after o)) = "".
Proof.
  intros Ho Hnil.
  destruct (StructCheck_Get_success c uri d o Ho Hnil)
    as (resp & data & check & t' & _ & _ & _ & Hdec & -> & _).
  unfold StructCheck.marshalCheck in Hdec.
  change (DataStorageLineOfService_UnmarshalJSON
            [("id", asEncoded (StructCheck.checkID check))] d = (t', None))
    in Hdec.
  unfold DataStorageLineOfService_UnmarshalJSON, decodeObject in Hdec.
  cbn [foldl] in Hdec. unfold decodeMember in Hdec.
  change (findField dataStorageLineOfServiceFields ("id", _).1)
    with (Some (mkCodec "Id" "string"
                  (storeString (fun s t =>
                     setEntity (setID s (Entity' t)) t)))) in Hdec.
  unfold tokenOf.
  destruct (asEncoded (StructCheck.checkID check)); simpl in Hdec;
    try discriminate Hdec; injection Hdec as <-;
    by destruct (Header resp !! "Etag") as [[|? ?]|].
Qed.

Lemma StructCheck_Get_fills_the_identifier_alone_witness :
  exists o,
    StructCheck.Get (stubClient taggedHeader serviceBody)
                    "/redfish/v1/StorageServices/1/Lines/2"
                    (setDescription "stale" zeroDataStorageLineOfService)
      = Done o /\
    Description (after o) = "".
Proof.
  eexists. split; [reflexivity|].
  match goal with
  | |- Description (after ?o) = _ =>
      assert (StructCheck.Get (stubClient taggedHeader serviceBody)
                "/redfish/v1/StorageServices/1/Lines/2"
                (setDescription "stale" zeroDataStorageLineOfService)
              = Done o) as Hget by reflexivity;
      destruct (StructCheck_Get_fills_the_identifier_alone
                  (stubClient taggedHeader serviceBody)
                  "/redfish/v1/StorageServices/1/Lines/2"
                  (setDescription "stale" zeroDataStorageLineOfService)
                  o Hget eq_refl) as (Hzero & _ & _)
  end.
  exact (f_equal Description Hzero).
Defined.

(** *** Where [Get] does not return *)

(** X22.  Called with a client that is not nil and that answers by an error or
    by a response that is not nil and has a body, [Get] indexes the values
    of the [Etag] header after testing the header against nil alone: it
    panics only when the response binds the header to a slice that is not
    nil and has no value, and otherwise returns. *)
Theorem Get_panics_only_on_an_Etag_header_without_values `{Resource T}
  (rt : MapRange) (c : Client.t) (uri : string) (t : T) :
  MapCheck.Get rt c uri t = Panics \/ StructCheck.Get c uri t = Panics ->
  exists resp,
    Client.Get c uri = inl resp /\ Header resp !! "Etag" = Some [].
Proof.
  intros [Hp|Hp]; revert Hp.
  - unfold MapCheck.Get.
    destruct (Client.Get c uri) as [resp|?]; [|done].
    destruct (ReadAll (Body resp)) as [data|?]; [|done].
    destruct (unmarshalMap data) as [check|?]; [|done].
    destruct (Unmarshal _ t) as [t' [e|]]; [done|].
    destruct (Header resp !! "Etag") as [[|tag ?]|] eqn:Htag; simpl;
      try done.
    intros _. by exists resp.
  - unfold StructCheck.Get.
    destruct (Client.Get c uri) as [resp|?]; [|done].
    destruct (ReadAll (Body resp)) as [data|?]; [|done].
    destruct (StructCheck.unmarshalCheck data) as [check|?]; [|done].
    destruct (Unmarshal _ t) as [t' [e|]]; [done|].
    destruct (Header resp !! "Etag") as [[|tag ?]|] eqn:Htag; simpl;
      try done.
    intros _. by exists resp.
Qed.

Lemma Get_panics_only_on_an_Etag_header_without_values_witness :
  MapCheck.Get rangeInOrder (stubClient (<["Etag" := []]> ∅) serviceBody)
               "/redfish/v1/StorageServices/1/Lines/2"
               zeroDataStorageLineOfService = Panics /\
  exists resp,
    Client.Get (stubClient (<["Etag" := []]> ∅) serviceBody)
               "/redfish/v1/StorageServices/1/Lines/2" = inl resp /\
    Header resp !! "Etag" = Some [].
Proof.
  split; [reflexivity|].
  apply (Get_panics_only_on_an_Etag_header_without_values rangeInOrder
           (stubClient (<["Etag" := []]> ∅) serviceBody)
           "/redfish/v1/StorageServices/1/Lines/2"
           zeroDataStorageLineOfService).
  left. reflexivity.
Defined.

(** *** Fetching into a record that is in use *)

Lemma UnmarshalJSON_fresh ms (d d' t : DataStorageLineOfService) :
  DataStorageLineOfService_UnmarshalJSON ms d = (t, None) ->
  DataStorageLineOfService_UnmarshalJSON ms d' = (t, None).
Proof.
  unfold DataStorageLineOfService_UnmarshalJSON.
  destruct (decodeObject _ _ _) as [t0 [e|]]; [done|]. by intros [= <-].
Qed.

(** X23.  A [Get] of an object that returns nil replaces the record as a whole:
    what it leaves does not depend on what the record held before, so a
    field the new body does not carry is back at its zero value. *)
Theorem successful_Get_forgets_the_previous_record (rt : MapRange)
  (c : Client.t) (uri : string) (resp : Response)
  (members : list (string * json))
  (d d' : DataStorageLineOfService) (o : outcome DataStorageLineOfService) :
  Client.Get c uri = inl resp ->
  ReadAll (Body resp) = inl (Some (DocObject members)) ->
  returned o = None ->
  (MapCheck.Get rt c uri d = Done o -> MapCheck.Get rt c uri d' = Done o) /\
  (StructCheck.Get c uri d = Done o -> StructCheck.Get c uri d' = Done o).
Proof.
  intros Hget Hread Hnil. split.
  - unfold MapCheck.Get. rewrite Hget, Hread. cbn [unmarshalMap].
    destruct (forallb _ members); [|intros [= <-]; discriminate Hnil].
    change (MapCheck.reshape rt <$> Some ?m)
      with (Some (MapCheck.reshape rt m)).
    destruct (Marshal_members
                (MapCheck.reshape rt
                   (foldl (fun m kv => <[kv.1 := asDecoded kv.2]> m)
                          ∅ members)))
      as (ms & -> & _).
    change (Unmarshal (DocObject ms) ?x)
      with (DataStorageLineOfService_UnmarshalJSON ms x).
    destruct (DataStorageLineOfService_UnmarshalJSON ms d) as [t [e|]] eqn:Hd.
    + intros [= <-]. discriminate Hnil.
    + by rewrite (UnmarshalJSON_fresh ms d d' t Hd).
  - unfold StructCheck.Get. rewrite Hget, Hread.
    destruct (StructCheck.unmarshalCheck _) as [check|?]; [|by intros [= <-]].
    unfold StructCheck.marshalCheck.
    change (Unmarshal (DocObject ?ms) ?x)
      with (DataStorageLineOfService_UnmarshalJSON ms x).
    destruct (DataStorageLineOfService_UnmarshalJSON _ d) as [t [e|]] eqn:Hd.
    + intros [= <-]. discriminate Hnil.
    + by rewrite (UnmarshalJSON_fresh _ d d' t Hd).
Qed.

Lemma successful_Get_forgets_the_previous_record_witness :
  exists o,
    MapCheck.Get rangeInOrder (stubClient ∅ serviceBody)
                 "/redfish/v1/StorageServices/1/Lines/2"
                 zeroDataStorageLineOfService = Done o /\
    MapCheck.Get rangeInOrder (stubClient ∅ serviceBody)
                 "/redfish/v1/StorageServices/1/Lines/2"
                 (setOEM "stale" zeroDataStorageLineOfService) = Done o.
Proof.
  eexists. split; [reflexivity|].
  match goal with
  | |- _ = Done ?o =>
      assert (MapCheck.Get rangeInOrder (stubClient ∅ serviceBody)
                "/redfish/v1/StorageServices/1/Lines/2"
                zeroDataStorageLineOfService = Done o) as Hrun
        by reflexivity;
      destruct (successful_Get_forgets_the_previous_record rangeInOrder
                  (stubClient ∅ serviceBody)
                  "/redfish/v1/StorageServices/1/Lines/2"
                  (stubResponse ∅ serviceBody) serviceBody
                  zeroDataStorageLineOfService
                  (setOEM "stale" zeroDataStorageLineOfService) o
                  eq_refl eq_refl eq_refl) as [Hmap _];
      exact (Hmap Hrun)
  end.
Defined.

(** ** The collection retriever, further *)

Lemma list_to_set_fmap_nil {A} (f : A -> string) (l : list A) :
  list_to_set (C := gset string) (f <$> l) = ∅ <-> l = [].
Proof.
  split; [|by intros ->].
  destruct l as [|x l]; [done|]. intros Hempty. exfalso.
  apply (not_elem_of_empty (C := gset string) (f x)).
  rewrite <- Hempty. apply elem_of_list_to_set. simpl. by left.
Qed.

Lemma walkKey_empty link err : walkKey link err = ∅ <-> err = None.
Proof.
  destruct err as [e|]; simpl; [|done].
  split; [|done]. intros Hempty. exfalso.
  apply (not_elem_of_empty (C := gset string) link).
  rewrite <- Hempty. by apply elem_of_singleton.
Qed.

(** X24.  The error the retriever returns is nil exactly when the walk of the
    collection succeeded and so did the fetch of every member, whatever
    the order in which the fetches report.  The retriever returns unless
    the write of the walker overlaps that of the aggregator. *)
Theorem collection_error_is_nil_exactly_when_nothing_failed
  (sch : Scheduler) (enumerate : Client.t -> string -> Walk)
  (entityGet : EntityGet) (c : Client.t) (link : string)
  (reports : list GetResult) :
  link ≠ "" ->
  mapM (getReport entityGet c) (members (enumerate c link)) = Done reports ->
  (overlappingWrites sch (walkError (enumerate c link)) (arrival sch reports)
   = true ->
   ListReferencedDataStorageLineOfServices sch enumerate entityGet c link
   = Panics) /\
  (overlappingWrites sch (walkError (enumerate c link)) (arrival sch reports)
   = false ->
   exists items err,
     ListReferencedDataStorageLineOfServices sch enumerate entityGet c link
       = Done (items, err) /\
     (err = None <->
      walkError (enumerate c link) = None /\
      Forall (fun r => Error r = None) reports)).
Proof.
  intros Hlink Hreports.
  pose proof (ListReferenced_spec sch enumerate entityGet c link reports
                Hlink Hreports) as Hspec.
  split; intros Hrace; rewrite Hrace in Hspec; [done|].
  destruct Hspec as (items & err & Hrun & _ & Hdom & Hnil).
  exists items, err. split; [done|].
  rewrite Hnil, <- dom_empty_iff_L, Hdom, empty_union_L.
  rewrite list_to_set_fmap_nil, walkKey_empty.
  split; intros [H1 H2].
  - split; [done|]. apply Forall_forall. intros r Hr.
    destruct (Error r) as [e|] eqn:He; [|done]. exfalso.
    assert (r ∈ filter (fun r => is_Some (Error r)) reports) as Hin
      by (apply list_elem_of_filter; split; [by rewrite He | done]).
    rewrite H1 in Hin. by apply elem_of_nil in Hin.
  - split; [|done].
    clear - H2. induction H2 as [|r rs Hr _ IH]; [done|].
    rewrite filter_cons_False; [done|]. rewrite Hr. by intros [].
Qed.

Lemma collection_error_is_nil_exactly_when_nothing_failed_witness :
  exists items err,
    ListReferencedDataStorageLineOfServices inDispatchOrder
      (linesWalk ["/redfish/v1/Lines/1"; "/redfish/v1/Lines/3"] None)
      (MapCheck.Get rangeInOrder) linesClient "/redfish/v1/Lines"
      = Done (items, err) /\
    err = None.
Proof.
  destruct (collection_error_is_nil_exactly_when_nothing_failed
              inDispatchOrder
              (linesWalk ["/redfish/v1/Lines/1"; "/redfish/v1/Lines/3"] None)
              (MapCheck.Get rangeInOrder) linesClient "/redfish/v1/Lines"
              _ ltac:(discriminate) eq_refl) as [_ Hreturns].
  destruct (Hreturns eq_refl) as (items & err & Hrun & Hnil).
  exists items, err. split; [exact Hrun|]. apply Hnil.
  split; [reflexivity|]. repeat constructor.
Defined.

Lemma foldl_aggregate_lookup_congr (rs : list GetResult) st1 st2 l :
  Failures st1.2 !! l = Failures st2.2 !! l ->
  Failures (foldl aggregate st1 rs).2 !! l
  = Failures (foldl aggregate st2 rs).2 !! l.
Proof.
  revert st1 st2. induction rs as [|r rs IH]; intros st1 st2 Heq; [done|].
  simpl. apply IH. unfold aggregate.
  destruct (Error r) as [e|]; simpl; [|done].
  destruct (decide (Link r = l)) as [->|Hne].
  - by rewrite !lookup_insert_eq.
  - by rewrite !lookup_insert_ne.
Qed.

(** With distinct links, the mapping ends with the error of each report
    under its link. *)
Lemma foldl_aggregate_lookup_report (rs : list GetResult) st r :
  NoDup (Link <$> rs) -> r ∈ rs ->
  Failures (foldl aggregate st rs).2 !! Link r
  = match Error r with
    | Some e => Some e
    | None => Failures st.2 !! Link r
    end.
Proof.
  revert st. induction rs as [|a rs IH]; intros st Hnd Hr.
  - by apply elem_of_nil in Hr.
  - rewrite fmap_cons in Hnd. apply NoDup_cons in Hnd as [Hnotin Hnd].
    simpl. apply elem_of_cons in Hr as [->|Hr].
    + rewrite foldl_aggregate_lookup.
      * unfold aggregate. destruct (Error a) as [e|]; simpl; [|done].
        apply lookup_insert_eq.
      * intros (r' & Heq & Hr')%list_elem_of_fmap.
        apply list_elem_of_filter in Hr' as [_ Hr'].
        apply Hnotin. rewrite Heq. by apply list_elem_of_fmap_2.
    + rewrite IH by done.
      destruct (Error r) as [e|]; [done|].
      unfold aggregate. destruct (Error a) as [e|]; simpl; [|done].
      apply lookup_insert_ne. intros Heq. apply Hnotin.
      rewrite Heq. by apply list_elem_of_fmap_2.
Qed.

Lemma walkerWrite_lookup_ne link err st l :
  l ≠ link ->
  Failures (walkerWrite link err st).2 !! l = Failures st.2 !! l.
Proof.
  intros Hne. destruct err as [e|]; simpl; [|done].
  by apply lookup_insert_ne.
Qed.

(** X25.  When the collection lists no link twice, the failure mapping holds,
    under the link of each member other than the collection link itself,
    the error of the fetch of that member, and nothing when the fetch
    succeeded; this does not depend on the order in which the fetches
    report nor on whether the walker writes before or after the
    aggregator.  The retriever returns unless the two writes overlap. *)
Theorem failure_mapping_keeps_the_error_of_each_member
  (sch : Scheduler) (enumerate : Client.t -> string -> Walk)
  (entityGet : EntityGet) (c : Client.t) (link : string)
  (reports : list GetResult) :
  link ≠ "" ->
  NoDup (members (enumerate c link)) ->
  mapM (getReport entityGet c) (members (enumerate c link)) = Done reports ->
  (overlappingWrites sch (walkError (enumerate c link)) (arrival sch reports)
   = true ->
   ListReferencedDataStorageLineOfServices sch enumerate entityGet c link
   = Panics) /\
  (overlappingWrites sch (walkError (enumerate c link)) (arrival sch reports)
   = false ->
   exists items err,
     ListReferencedDataStorageLineOfServices sch enumerate entityGet c link
       = Done (items, err) /\
     forall r, r ∈ reports -> Link r ≠ link ->
               failuresOf err !! Link r = Error r).
Proof.
  intros Hlink Hnodup Hreports.
  pose proof (reports_links _ _ _ _ Hreports) as Hlinks.
  unfold ListReferencedDataStorageLineOfServices, CollectList.
  rewrite (bool_decide_false _ Hlink), Hreports. simpl.
  split; intros Hrace; rewrite Hrace; [done|].
  set (received := arrival sch reports).
  set (n := length received).
  set (err := walkError (enumerate c link)).
  match goal with
  | |- context [Empty ?x.2] => set (st := x) in *
  end.
  assert (forall r, r ∈ reports -> Link r ≠ link ->
                    Failures st.2 !! Link r = Error r) as Hst.
  { intros r Hr Hne.
    assert (Failures st.2 !! Link r
            = Failures (foldl aggregate ([], NewCollectionError)
                              received).2 !! Link r) as ->.
    { rewrite <- (take_drop (n - 1) received). rewrite foldl_app.
      unfold st. destruct (walkerTiming sch).
      - apply foldl_aggregate_lookup_congr.
        by apply walkerWrite_lookup_ne.
      - by apply walkerWrite_lookup_ne.
      - by apply walkerWrite_lookup_ne. }
    rewrite foldl_aggregate_lookup_report.
    - simpl. rewrite lookup_empty. by destruct (Error r).
    - unfold received. rewrite (arrival_perm sch _ reports).
      by rewrite Hlinks.
    - unfold received. by rewrite (arrival_perm sch _ reports). }
  destruct (Empty st.2) eqn:Hempty.
  - exists st.1, None. split; [done|]. intros r Hr Hne.
    rewrite <- (Hst r Hr Hne). apply Empty_spec in Hempty.
    by rewrite Hempty.
  - exists st.1, (Some st.2). split; [done|]. exact Hst.
Qed.

Lemma failure_mapping_keeps_the_error_of_each_member_witness :
  exists items err,
    ListReferencedDataStorageLineOfServices inDispatchOrder
      (linesWalk ["/redfish/v1/Lines/1"; "/redfish/v1/Lines/2"] None)
      (MapCheck.Get rangeInOrder) linesClient "/redfish/v1/Lines"
      = Done (items, err) /\
    failuresOf err !! "/redfish/v1/Lines/2"
      = Some (Errorf "connection reset") /\
    failuresOf err !! "/redfish/v1/Lines/1" = None.
Proof.
  destruct (failure_mapping_keeps_the_error_of_each_member inDispatchOrder
              (linesWalk ["/redfish/v1/Lines/1"; "/redfish/v1/Lines/2"] None)
              (MapCheck.Get rangeInOrder) linesClient "/redfish/v1/Lines"
              _ ltac:(discriminate)
              ltac:(apply NoDup_cons; split;
                    [rewrite list_elem_of_singleton; discriminate
                    |apply NoDup_singleton])
              eq_refl) as [_ Hreturns].
  destruct (Hreturns eq_refl) as (items & err & Hrun & Hmap).
  exists items, err. split; [exact Hrun|]. split.
  - apply (Hmap {| Item := zeroDataStorageLineOfService;
                   Link := "/redfish/v1/Lines/2";
                   Error := Some (Errorf "connection reset") |}).
    + apply elem_of_cons. right. apply elem_of_cons. left. reflexivity.
    + discriminate.
  - match type of Hmap with
    | forall r, r ∈ ?a :: _ -> _ => apply (Hmap a)
    end.
    + apply elem_of_cons. by left.
    + discriminate.
Defined.
